(** * useSpeechToText: a shallow embedding of src/Hooks/useSpeechToText.tsx

    The hook is event-driven glue.  Its React state ([isRecording],
    [results], [error]) and refs ([audioContextRef], [timeoutId],
    [mediaStream]) form the first half of [State]; the second half holds
    what the collaborators keep on the hook's behalf: the browser's
    table of pending timeouts, the Hark listeners, the handlers installed
    on the native recognizer, and the asynchronous work in flight
    (microphone requests, WAV exports, FileReader reads, HTTP requests).
    Every call that leaves the hook is appended to [log].

    One [Event] is one turn of the host's event loop: a call from the UI,
    a Hark notification, a timeout firing, or the completion of a piece
    of asynchronous work.  [step] runs the handler the source registers
    for it.

    What is outside the source is kept abstract:
    - Hark may emit 'speaking' and 'stopped_speaking' on any instance
      the hook created, in any order;
    - a timeout may fire whenever it is pending: delays are recorded,
      elapsed time is not;
    - the microphone request, the WAV export, the FileReader read and
      the HTTP request complete in any order, or never;
    - sample rates are integers; the source only compares them with
      48000;
    - the options do not change between renders, and the user's
      [onStartSpeaking] and [onStoppedSpeaking] do not call back into
      the hook;
    - [recognition.start()] and [new AudioContext()] do not throw;
    - React is mounted on a legacy root without an error boundary: a
      state update made outside React's own event handlers is flushed
      while the setter is on the stack, so an updater that throws makes
      the setter throw. *)

From Stdlib Require Import ZArith Lia Ascii.
From stdpp Require Import gmap strings list fin_maps.

(** ** Values the code reads *)

(** [UseSpeechToTextTypes], the hook's options.  Every field is optional
    in the source; an absent one is [None].  The two speaking callbacks
    are opaque user code: only their presence matters to the hook, and
    they are assumed not to call back into it. *)
Record UseSpeechToTextTypes := {
  continuous : option bool;
  crossBrowser : option bool;
  googleApiKey : option string;
  onStartSpeaking : bool;
  onStoppedSpeaking : bool;
  timeout : option Z
}.

(** What the module reads from the host when it is loaded and mounted. *)
Record Host := {
  isEdgeChromium : bool;
  SpeechRecognition : bool;   (* window.SpeechRecognition || webkitSpeechRecognition *)
  getUserMedia : bool;        (* navigator?.mediaDevices?.getUserMedia *)
  deviceSampleRate : Z        (* sampleRate of a freshly built AudioContext *)
}.

Record AudioContext := { sampleRate : Z }.

(** The JSON body of the transcription response, in the shape the code
    reads: [results?.length], [results[0].alternatives[0].transcript]. *)
Record Alternative := { transcript : string }.
Record SpeechResult := { alternatives : list Alternative }.
Record CloudJson := { json_results : option (list SpeechResult) }.

(** The event handed to [recognition.onresult]: a list of results, each
    a list of alternatives. *)
Record RecognitionEvent := { e_results : option (list (list Alternative)) }.

(** The body built for the transcription endpoint, with the URL it is
    posted to. *)
Record Request := {
  url : string;
  encoding : string;
  languageCode : string;
  sampleRateHertz : option Z;
  content : string
}.

(** Calls that leave the hook. *)
Inductive Effect :=
| ERecognitionStart                    (* recognition.start() *)
| ERecognitionStop                     (* recognition.stop() *)
| EStartRecording                      (* startRecording({errHandler, audioContext}) *)
| EStopRecording (exportWAV : bool) (wavCallback : option bool)
| ETrackStop (stream : nat)            (* stream.getAudioTracks()[0].stop() *)
| EReadAsDataURL                       (* reader.readAsDataURL(blob) *)
| EFetch (req : Request)               (* fetch(url, {method: 'POST', body}) *)
| EOnStartSpeaking
| EOnStoppedSpeaking
| EUncaught.                           (* a TypeError or rejection nobody handles *)

(** A [wavCallback] is always [blob => handleBlobToBase64({blob,
    continuous: c})]; it is represented by its flag [c], and so are the
    FileReader read and the HTTP request that descend from it. *)
Record State := {
  isRecording : bool;
  results : list string;
  error : string;
  audioContextRef : option AudioContext;
  timeoutId : option nat;
  mediaStream : option nat;
  timers : gmap nat (option Z);   (* pending window.setTimeout calls: id to delay *)
  next_timer : nat;
  next_stream : nat;
  harks : list nat;               (* Hark instances, each with the stream it listens to *)
  recognition_handlers : bool;    (* onresult, onaudiostart, onaudioend assigned *)
  recognition_continuous : bool;  (* recognition.continuous *)
  starts : nat;                   (* startRecording calls awaiting the microphone *)
  wavs : list bool;               (* WAV exports awaiting their callback *)
  readers : list bool;            (* FileReader reads awaiting onloadend *)
  fetches : list bool;            (* requests awaiting their response *)
  log : list Effect
}.

Inductive Event :=
| CallStart                              (* the UI calls startSpeechToText *)
| CallStop                               (* the UI calls stopSpeechToText *)
| StreamSettled (granted : bool)         (* `await startRecording(...)` resumes *)
| Speaking (i : nat)                     (* Hark instance i emits 'speaking' *)
| StoppedSpeaking (i : nat)              (* Hark instance i emits 'stopped_speaking' *)
| TimeoutFires (id : nat)
| WavReady (k : nat)                     (* the recorder hands over the WAV blob *)
| LoadEnd (k : nat) (dataUrl : string)   (* reader.onloadend *)
| ReadFailed (k : nat)                   (* reader.onloadend, reader.result null *)
| Response (k : nat) (json : CloudJson)  (* fetch and .json() resolved *)
| FetchFailed (k : nat)                  (* fetch or .json() rejected *)
| OnResult (e : RecognitionEvent)
| OnAudioStart
| OnAudioEnd.

(** ** JavaScript helpers *)

(** Truthiness of an optional boolean and of an optional number. *)
Definition truthy (b : option bool) : bool :=
  match b with Some true => true | _ => false end.

Definition truthy_number (n : option Z) : bool :=
  match n with Some z => negb (z =? 0)%Z | None => false end.

(** [s.indexOf(c)] for a one-character needle: position of the first
    occurrence, -1 when there is none. *)
Fixpoint indexOf_from (c : ascii) (s : string) (i : Z) : Z :=
  match s with
  | EmptyString => (-1)%Z
  | String a s' => if Ascii.eqb a c then i else indexOf_from c s' (i + 1)%Z
  end.

Definition indexOf (c : ascii) (s : string) : Z := indexOf_from c s 0%Z.

Fixpoint drop_string (n : nat) (s : string) : string :=
  match n, s with
  | O, _ => s
  | S n', String _ s' => drop_string n' s'
  | S _, EmptyString => EmptyString
  end.

(** [s.substr(start)]: a negative start counts from the end. *)
Definition substr (start : Z) (s : string) : string :=
  if (0 <=? start)%Z then drop_string (Z.to_nat start) s
  else drop_string (Z.to_nat (Z.max (Z.of_nat (String.length s) + start) 0)) s.

Definition comma : ascii := Ascii.ascii_of_nat 44.

(** A template literal prints an absent value as "undefined". *)
Definition interpolate (s : option string) : string :=
  match s with Some k => k | None => "undefined" end.

(** ** Field updates *)

Definition set_isRecording (v : bool) (s : State) : State :=
  {| isRecording := v; results := results s; error := error s;
     audioContextRef := audioContextRef s; timeoutId := timeoutId s;
     mediaStream := mediaStream s; timers := timers s;
     next_timer := next_timer s; next_stream := next_stream s;
     harks := harks s; recognition_handlers := recognition_handlers s;
     recognition_continuous := recognition_continuous s; starts := starts s;
     wavs := wavs s; readers := readers s; fetches := fetches s; log := log s |}.

Definition set_results (v : list string) (s : State) : State :=
  {| isRecording := isRecording s; results := v; error := error s;
     audioContextRef := audioContextRef s; timeoutId := timeoutId s;
     mediaStream := mediaStream s; timers := timers s;
     next_timer := next_timer s; next_stream := next_stream s;
     harks := harks s; recognition_handlers := recognition_handlers s;
     recognition_continuous := recognition_continuous s; starts := starts s;
     wavs := wavs s; readers := readers s; fetches := fetches s; log := log s |}.

Definition set_error (v : string) (s : State) : State :=
  {| isRecording := isRecording s; results := results s; error := v;
     audioContextRef := audioContextRef s; timeoutId := timeoutId s;
     mediaStream := mediaStream s; timers := timers s;
     next_timer := next_timer s; next_stream := next_stream s;
     harks := harks s; recognition_handlers := recognition_handlers s;
     recognition_continuous := recognition_continuous s; starts := starts s;
     wavs := wavs s; readers := readers s; fetches := fetches s; log := log s |}.

Definition set_audioContextRef (v : option AudioContext) (s : State) : State :=
  {| isRecording := isRecording s; results := results s; error := error s;
     audioContextRef := v; timeoutId := timeoutId s;
     mediaStream := mediaStream s; timers := timers s;
     next_timer := next_timer s; next_stream := next_stream s;
     harks := harks s; recognition_handlers := recognition_handlers s;
     recognition_continuous := recognition_continuous s; starts := starts s;
     wavs := wavs s; readers := readers s; fetches := fetches s; log := log s |}.

Definition set_mediaStream (v : option nat) (s : State) : State :=
  {| isRecording := isRecording s; results := results s; error := error s;
     audioContextRef := audioContextRef s; timeoutId := timeoutId s;
     mediaStream := v; timers := timers s;
     next_timer := next_timer s; next_stream := next_stream s;
     harks := harks s; recognition_handlers := recognition_handlers s;
     recognition_continuous := recognition_continuous s; starts := starts s;
     wavs := wavs s; readers := readers s; fetches := fetches s; log := log s |}.

(** [window.setTimeout(cb, delay)]: a fresh id enters the table of
    pending timeouts.  The only callback the hook ever schedules is the
    auto-stop, so the table keeps the delay alone. *)
Definition setTimeout (delay : option Z) (s : State) : nat * State :=
  (next_timer s,
   {| isRecording := isRecording s; results := results s; error := error s;
      audioContextRef := audioContextRef s; timeoutId := timeoutId s;
      mediaStream := mediaStream s;
      timers := <[next_timer s := delay]> (timers s);
      next_timer := S (next_timer s); next_stream := next_stream s;
      harks := harks s; recognition_handlers := recognition_handlers s;
      recognition_continuous := recognition_continuous s; starts := starts s;
      wavs := wavs s; readers := readers s; fetches := fetches s; log := log s |}).

Definition set_timeoutId (v : option nat) (s : State) : State :=
  {| isRecording := isRecording s; results := results s; error := error s;
     audioContextRef := audioContextRef s; timeoutId := v;
     mediaStream := mediaStream s; timers := timers s;
     next_timer := next_timer s; next_stream := next_stream s;
     harks := harks s; recognition_handlers := recognition_handlers s;
     recognition_continuous := recognition_continuous s; starts := starts s;
     wavs := wavs s; readers := readers s; fetches := fetches s; log := log s |}.

Definition set_timers (v : gmap nat (option Z)) (s : State) : State :=
  {| isRecording := isRecording s; results := results s; error := error s;
     audioContextRef := audioContextRef s; timeoutId := timeoutId s;
     mediaStream := mediaStream s; timers := v;
     next_timer := next_timer s; next_stream := next_stream s;
     harks := harks s; recognition_handlers := recognition_handlers s;
     recognition_continuous := recognition_continuous s; starts := starts s;
     wavs := wavs s; readers := readers s; fetches := fetches s; log := log s |}.

(** A new stream (from the microphone, or from [clone]) gets a fresh id. *)
Definition new_stream (s : State) : nat * State :=
  (next_stream s,
   {| isRecording := isRecording s; results := results s; error := error s;
      audioContextRef := audioContextRef s; timeoutId := timeoutId s;
      mediaStream := mediaStream s; timers := timers s;
      next_timer := next_timer s; next_stream := S (next_stream s);
      harks := harks s; recognition_handlers := recognition_handlers s;
      recognition_continuous := recognition_continuous s; starts := starts s;
      wavs := wavs s; readers := readers s; fetches := fetches s; log := log s |}).

Definition set_harks (v : list nat) (s : State) : State :=
  {| isRecording := isRecording s; results := results s; error := error s;
     audioContextRef := audioContextRef s; timeoutId := timeoutId s;
     mediaStream := mediaStream s; timers := timers s;
     next_timer := next_timer s; next_stream := next_stream s;
     harks := v; recognition_handlers := recognition_handlers s;
     recognition_continuous := recognition_continuous s; starts := starts s;
     wavs := wavs s; readers := readers s; fetches := fetches s; log := log s |}.

Definition set_recognition (handlers cont : bool) (s : State) : State :=
  {| isRecording := isRecording s; results := results s; error := error s;
     audioContextRef := audioContextRef s; timeoutId := timeoutId s;
     mediaStream := mediaStream s; timers := timers s;
     next_timer := next_timer s; next_stream := next_stream s;
     harks := harks s; recognition_handlers := handlers;
     recognition_continuous := cont; starts := starts s;
     wavs := wavs s; readers := readers s; fetches := fetches s; log := log s |}.

Definition set_starts (v : nat) (s : State) : State :=
  {| isRecording := isRecording s; results := results s; error := error s;
     audioContextRef := audioContextRef s; timeoutId := timeoutId s;
     mediaStream := mediaStream s; timers := timers s;
     next_timer := next_timer s; next_stream := next_stream s;
     harks := harks s; recognition_handlers := recognition_handlers s;
     recognition_continuous := recognition_continuous s; starts := v;
     wavs := wavs s; readers := readers s; fetches := fetches s; log := log s |}.

Definition set_wavs (v : list bool) (s : State) : State :=
  {| isRecording := isRecording s; results := results s; error := error s;
     audioContextRef := audioContextRef s; timeoutId := timeoutId s;
     mediaStream := mediaStream s; timers := timers s;
     next_timer := next_timer s; next_stream := next_stream s;
     harks := harks s; recognition_handlers := recognition_handlers s;
     recognition_continuous := recognition_continuous s; starts := starts s;
     wavs := v; readers := readers s; fetches := fetches s; log := log s |}.

Definition set_readers (v : list bool) (s : State) : State :=
  {| isRecording := isRecording s; results := results s; error := error s;
     audioContextRef := audioContextRef s; timeoutId := timeoutId s;
     mediaStream := mediaStream s; timers := timers s;
     next_timer := next_timer s; next_stream := next_stream s;
     harks := harks s; recognition_handlers := recognition_handlers s;
     recognition_continuous := recognition_continuous s; starts := starts s;
     wavs := wavs s; readers := v; fetches := fetches s; log := log s |}.

Definition set_fetches (v : list bool) (s : State) : State :=
  {| isRecording := isRecording s; results := results s; error := error s;
     audioContextRef := audioContextRef s; timeoutId := timeoutId s;
     mediaStream := mediaStream s; timers := timers s;
     next_timer := next_timer s; next_stream := next_stream s;
     harks := harks s; recognition_handlers := recognition_handlers s;
     recognition_continuous := recognition_continuous s; starts := starts s;
     wavs := wavs s; readers := readers s; fetches := v; log := log s |}.

(** Record one call that leaves the hook. *)
Definition emit (e : Effect) (s : State) : State :=
  {| isRecording := isRecording s; results := results s; error := error s;
     audioContextRef := audioContextRef s; timeoutId := timeoutId s;
     mediaStream := mediaStream s; timers := timers s;
     next_timer := next_timer s; next_stream := next_stream s;
     harks := harks s; recognition_handlers := recognition_handlers s;
     recognition_continuous := recognition_continuous s; starts := starts s;
     wavs := wavs s; readers := readers s; fetches := fetches s;
     log := log s ++ [e] |}.

(** ** The hook *)

Definition unsupported_recognition : string :=
  "Speech Recognition API is only available on Chrome".
Definition unsupported_getUserMedia : string :=
  "getUserMedia is not supported on this device/browser :(".
Definition permission_denied : string :=
  "Microphone permission was denied".

(** The state hooks and refs as [useState] and [useRef] create them,
    with nothing pending on the host's side. *)
Definition initial : State :=
  {| isRecording := false; results := []; error := "";
     audioContextRef := None; timeoutId := None; mediaStream := None;
     timers := ∅; next_timer := 0; next_stream := 0; harks := [];
     recognition_handlers := false; recognition_continuous := false;
     starts := 0; wavs := []; readers := []; fetches := []; log := [] |}.

(** How a call ends: it returns, or it throws and the rest of its
    caller does not run.  Either way the state it leaves is given. *)
Inductive Completion :=
| Returned (s : State)
| Threw (s : State).

Definition state_of (c : Completion) : State :=
  match c with Returned s | Threw s => s end.

(** React's setters.  [setResults] takes an updater.  The hook calls it
    from callbacks React does not know of (FileReader, the recognizer),
    so the update is flushed before the setter returns: when the updater
    raises a TypeError the list is not updated and the error comes out
    of [setResults]. *)
Definition setIsRecording (v : bool) (s : State) : State := set_isRecording v s.

Definition setError (v : string) (s : State) : State := set_error v s.

Definition setResults (updater : list string -> option (list string))
    (s : State) : Completion :=
  match updater (results s) with
  | Some l => Returned (set_results l s)
  | None => Threw (emit EUncaught s)
  end.

(** [googleCloudJson.results[0].alternatives[0].transcript]; [None] is
    the TypeError of reading a property of undefined. *)
Definition first_transcript (json : CloudJson) : option string :=
  match json_results json with
  | Some (r :: _) =>
      match alternatives r with
      | a :: _ => Some (transcript a)
      | [] => None
      end
  | _ => None
  end.

(** [googleCloudJson.results?.length > 0] *)
Definition has_results (json : CloudJson) : bool :=
  match json_results json with
  | Some l => (0 <? length l)%nat
  | None => false
  end.

(** [e.results[e.results.length - 1][0].transcript] *)
Definition last_transcript (l : list (list Alternative)) : option string :=
  match l !! (length l - 1)%nat with
  | Some (a :: _) => Some (transcript a)
  | _ => None
  end.

(** [mediaStream.current?.getAudioTracks()[0].stop()] *)
Definition stop_current_track (s : State) : State :=
  match mediaStream s with
  | Some sid => emit (ETrackStop sid) s
  | None => s
  end.

(** [clearTimeout(id)]: drops a pending timeout; a stale or absent id
    clears nothing. *)
Definition clearTimeout (id : option nat) (s : State) : State :=
  match id with
  | Some i => set_timers (delete i (timers s)) s
  | None => s
  end.

(** Modelled from the spec: recorderHelpers.startRecording is not among
    the sources.  The spec calls it a start-recording helper over a
    permission-gated stream acquisition whose failure is surfaced as
    the permission-denied message: the call asks for the microphone and
    its result is awaited. *)
Definition startRecording (s : State) : State :=
  emit EStartRecording (set_starts (S (starts s)) s).

(** Modelled from the spec: how the awaited recorderHelpers.startRecording
    call settles.  When the microphone is granted it yields the stream;
    when it is not, the helper runs the [errHandler] it was given and
    yields no stream. *)
Definition startRecording_settle (granted : bool)
    (errHandler : State -> State) (s : State) : option nat * State :=
  if granted then
    let '(sid, s1) := new_stream s in (Some sid, s1)
  else (None, errHandler s).

(** Modelled from the spec: recorderHelpers.stopRecording is not among
    the sources.  The spec calls it a stop-recording helper that can
    export the buffered audio as a waveform-audio blob: the blob is
    handed to [wavCallback] when [exportWAV] is set and a callback was
    given; otherwise the audio is dropped. *)
Definition stopRecording (exportWAV : bool) (wavCallback : option bool)
    (s : State) : State :=
  let s1 := emit (EStopRecording exportWAV wavCallback) s in
  match exportWAV, wavCallback with
  | true, Some c => set_wavs (wavs s1 ++ [c]) s1
  | _, _ => s1
  end.

Section Hook.

Variable props : UseSpeechToTextTypes.
Variable host : Host.

(** The module-level [recognition]: built once, unless the browser is
    Chromium Edge or has no recognizer. *)
Definition recognition : bool :=
  negb (isEdgeChromium host) && SpeechRecognition host.

(** The mount effect. *)
Definition useEffect (s : State) : State :=
  let s1 := if negb (truthy (crossBrowser props)) && negb recognition
            then setError unsupported_recognition s else s in
  let s2 := if negb (getUserMedia host)
            then setError unsupported_getUserMedia s1 else s1 in
  match audioContextRef s2 with
  | None =>
      set_audioContextRef (Some {| sampleRate := deviceSampleRate host |}) s2
  | Some _ => s2
  end.

Definition chromeSpeechRecognition (s : State) : State :=
  if recognition then
    let c := if truthy (continuous props) then true
             else recognition_continuous s in
    set_recognition true c (emit ERecognitionStart s)
  else s.

(** [recognition.onresult] *)
Definition onresult (e : RecognitionEvent) (s : State) : State :=
  match e_results e with
  | Some l =>
      state_of (setResults (fun prevResults =>
        match last_transcript l with
        | Some t => Some (prevResults ++ [t])
        | None => None
        end) s)
  | None => s
  end.

Definition handleRecordingTimeout (s : State) : State :=
  let '(id, s1) := setTimeout (timeout props) s in
  set_timeoutId (Some id) s1.

(** The callback [handleRecordingTimeout] schedules. *)
Definition timeout_callback (s : State) : State :=
  stopRecording false None (stop_current_track (setIsRecording false s)).

(** [startSpeechToText] up to its [await]. *)
Definition startSpeechToText (s : State) : State :=
  if recognition then chromeSpeechRecognition s
  else if negb (truthy (crossBrowser props)) then s
  else startRecording s.

(** Hark's 'speaking' listener. *)
Definition on_speaking (s : State) : State :=
  let s1 := if onStartSpeaking props then emit EOnStartSpeaking s else s in
  clearTimeout (timeoutId s1) s1.

(** Hark's 'stopped_speaking' listener. *)
Definition on_stopped_speaking (s : State) : State :=
  let s1 := if onStoppedSpeaking props then emit EOnStoppedSpeaking s else s in
  let s2 := stop_current_track (setIsRecording false s1) in
  stopRecording true
    (Some (if truthy (continuous props) then true else false)) s2.

(** [startSpeechToText] from its [await] on; [stream] is what the await
    produced.  Without a stream, [stream.clone()] is a TypeError and the
    rest of the function does not run. *)
Definition startSpeechToText_resume (stream : option nat) (s : State) : State :=
  let s1 := if truthy_number (timeout props)
            then handleRecordingTimeout s else s in
  let s2 := match mediaStream s1 with
            | Some prev => emit (ETrackStop prev) s1
            | None => s1
            end in
  match stream with
  | None => emit EUncaught s2
  | Some _ =>
      let '(clone, s3) := new_stream s2 in
      let s4 := set_mediaStream (Some clone) s3 in
      let s5 := set_harks (harks s4 ++ [clone]) s4 in
      setIsRecording true s5
  end.

Definition stopSpeechToText (s : State) : State :=
  if recognition then emit ERecognitionStop s
  else
    stopRecording true (Some false)
      (stop_current_track (setIsRecording false s)).

(** [handleBlobToBase64] up to [reader.onloadend]. *)
Definition handleBlobToBase64 (continuous : bool) (s : State) : State :=
  set_readers (readers s ++ [continuous]) (emit EReadAsDataURL s).

(** The sample rate put in the request. *)
Definition capped_sampleRate (s : State) : option Z :=
  match audioContextRef s with
  | Some ctx =>
      let r := sampleRate ctx in
      if negb (r =? 0)%Z && (48000 <? r)%Z then Some 48000%Z else Some r
  | None => None
  end.

Definition build_request (base64data : string) (s : State) : Request :=
  {| url := "https://speech.googleapis.com/v1/speech:recognize?key="
            +:+ interpolate (googleApiKey props);
     encoding := "LINEAR16";
     languageCode := "en-US";
     sampleRateHertz := capped_sampleRate s;
     content := substr (indexOf comma base64data + 1)%Z base64data |}.

(** [reader.onloadend] up to the awaited [fetch], when the read gave a
    data URL.  After a failed read [reader.result] is null,
    [base64data.indexOf] is a TypeError and nothing is sent: that is the
    event [ReadFailed]. *)
Definition onloadend (continuous : bool) (base64data : string)
    (s : State) : State :=
  set_fetches (fetches s ++ [continuous])
    (emit (EFetch (build_request base64data s)) s).

(** [reader.onloadend] once the response body has been parsed.  When
    [setResults] throws, the restart below it is not reached. *)
Definition onloadend_response (continuous : bool) (googleCloudJson : CloudJson)
    (s : State) : State :=
  let r := if has_results googleCloudJson then
             setResults (fun prevResults =>
               match first_transcript googleCloudJson with
               | Some t => Some (prevResults ++ [t])
               | None => None
               end) s
           else Returned s in
  match r with
  | Returned s1 => if continuous then startSpeechToText s1 else s1
  | Threw s1 => s1
  end.

(** One turn of the event loop.  [None]: the event cannot happen in
    this state (no such listener, timeout or pending work). *)
Definition step (s : State) (ev : Event) : option State :=
  match ev with
  | CallStart => Some (startSpeechToText s)
  | CallStop => Some (stopSpeechToText s)
  | StreamSettled granted =>
      match starts s with
      | O => None
      | S n =>
          let '(stream, s1) :=
            startRecording_settle granted (setError permission_denied)
              (set_starts n s) in
          Some (startSpeechToText_resume stream s1)
      end
  | Speaking i =>
      match harks s !! i with
      | Some _ => Some (on_speaking s)
      | None => None
      end
  | StoppedSpeaking i =>
      match harks s !! i with
      | Some _ => Some (on_stopped_speaking s)
      | None => None
      end
  | TimeoutFires id =>
      match timers s !! id with
      | Some _ => Some (timeout_callback (set_timers (delete id (timers s)) s))
      | None => None
      end
  | WavReady k =>
      match wavs s !! k with
      | Some c => Some (handleBlobToBase64 c (set_wavs (delete k (wavs s)) s))
      | None => None
      end
  | LoadEnd k dataUrl =>
      match readers s !! k with
      | Some c => Some (onloadend c dataUrl (set_readers (delete k (readers s)) s))
      | None => None
      end
  | ReadFailed k =>
      match readers s !! k with
      | Some _ => Some (emit EUncaught (set_readers (delete k (readers s)) s))
      | None => None
      end
  | Response k json =>
      match fetches s !! k with
      | Some c =>
          Some (onloadend_response c json (set_fetches (delete k (fetches s)) s))
      | None => None
      end
  | FetchFailed k =>
      match fetches s !! k with
      | Some _ => Some (emit EUncaught (set_fetches (delete k (fetches s)) s))
      | None => None
      end
  | OnResult e =>
      if recognition_handlers s then Some (onresult e s) else None
  | OnAudioStart =>
      if recognition_handlers s then Some (setIsRecording true s) else None
  | OnAudioEnd =>
      if recognition_handlers s then Some (setIsRecording false s) else None
  end.

(** A run of the event loop from a given state. *)
Fixpoint run (s : State) (evs : list Event) : option State :=
  match evs with
  | [] => Some s
  | ev :: rest =>
      match step s ev with
      | Some s' => run s' rest
      | None => None
      end
  end.

(** The states the mounted hook can be in. *)
Inductive reachable : State -> Prop :=
| reachable_mount : reachable (useEffect initial)
| reachable_step s ev s' :
    reachable s -> step s ev = Some s' -> reachable s'.

End Hook.

(** ** Observations on the log *)

Definition is_track_stop (sid : nat) (e : Effect) : bool :=
  match e with ETrackStop x => Nat.eqb x sid | _ => false end.

Definition is_wav_export (e : Effect) : bool :=
  match e with EStopRecording true (Some _) => true | _ => false end.

Definition is_start_recording (e : Effect) : bool :=
  match e with EStartRecording => true | _ => false end.

Definition is_fetch (e : Effect) : bool :=
  match e with EFetch _ => true | _ => false end.

Fixpoint count (p : Effect -> bool) (l : list Effect) : nat :=
  match l with
  | [] => 0
  | e :: l' => (if p e then 1 else 0) + count p l'
  end.

(** What a step added to the log. *)
Definition emitted (s s' : State) : list Effect :=
  drop (length (log s)) (log s').

(** The error strings the source can write. *)
Definition descriptive (e : string) : Prop :=
  e = "" \/ e = unsupported_recognition \/ e = unsupported_getUserMedia
  \/ e = permission_denied.

(** The rate a request carries for a context running at [r]. *)
Definition capped (r : Z) : Z := if (48000 <? r)%Z then 48000%Z else r.

(** ** Sample configurations *)

(** A browser without a native recognizer, with microphone access. *)
Definition firefox : Host :=
  {| isEdgeChromium := false; SpeechRecognition := false;
     getUserMedia := true; deviceSampleRate := 96000 |}.

(** A browser with neither recognizer nor microphone access. *)
Definition bare : Host :=
  {| isEdgeChromium := false; SpeechRecognition := false;
     getUserMedia := false; deviceSampleRate := 44100 |}.

Definition chrome : Host :=
  {| isEdgeChromium := false; SpeechRecognition := true;
     getUserMedia := true; deviceSampleRate := 48000 |}.

(** [useSpeechToText({})] *)
Definition no_props : UseSpeechToTextTypes :=
  {| continuous := None; crossBrowser := None; googleApiKey := None;
     onStartSpeaking := false; onStoppedSpeaking := false; timeout := None |}.

(** [useSpeechToText({continuous: true, crossBrowser: true,
    googleApiKey: 'k', timeout: 5000})] *)
Definition cross_props : UseSpeechToTextTypes :=
  {| continuous := Some true; crossBrowser := Some true;
     googleApiKey := Some "k"; onStartSpeaking := false;
     onStoppedSpeaking := false; timeout := Some 5000%Z |}.

(** [useSpeechToText({crossBrowser: true})] *)
Definition fallback_props : UseSpeechToTextTypes :=
  {| continuous := None; crossBrowser := Some true; googleApiKey := None;
     onStartSpeaking := false; onStoppedSpeaking := false; timeout := None |}.

(** [{"results": [{"alternatives": [{"transcript": "hello"}]}]}] *)
Definition hello_json : CloudJson :=
  {| json_results := Some [ {| alternatives := [ {| transcript := "hello" |} ] |} ] |}.

(** [{"results": [{"alternatives": []}]}] *)
Definition no_alternative_json : CloudJson :=
  {| json_results := Some [ {| alternatives := [] |} ] |}.

(** [{}] *)
Definition empty_json : CloudJson := {| json_results := None |}.

(** [{"results": []}] *)
Definition no_result_json : CloudJson := {| json_results := Some [] |}.

(** The state of the mounted hook after the given turns of the event
    loop ([initial] if one of them cannot happen). *)
Definition after (props : UseSpeechToTextTypes) (host : Host)
    (evs : list Event) : State :=
  default initial (run props host (useEffect props host initial) evs).

(** ** The claims the code does not meet, as the specification words them *)

(** "Exactly one entry is appended whenever the result list is
    non-empty, nothing otherwise." *)
Definition appends_whenever_results_nonempty
    (props : UseSpeechToTextTypes) (host : Host) : Prop :=
  forall (s s' : State) (k : nat) (json : CloudJson),
    step props host s (Response k json) = Some s' ->
    if has_results json
    then exists t, first_transcript json = Some t /\ results s' = results s ++ [t]
    else results s' = results s.

(** "A speaking event that occurs before a scheduled auto-stop fires
    clears it."  The auto-stop scheduled when [StreamSettled] resumes
    [startSpeechToText] in [s0] has id [next_timer s0]. *)
Definition speaking_clears_scheduled_auto_stop
    (props : UseSpeechToTextTypes) (host : Host) : Prop :=
  forall (s0 s1 s2 s3 : State) (granted : bool) (evs : list Event) (i : nat),
    reachable props host s0 ->
    step props host s0 (StreamSettled granted) = Some s1 ->
    run props host s1 evs = Some s2 ->
    step props host s2 (Speaking i) = Some s3 ->
    timers s3 !! next_timer s0 = None.

(** "After the response is processed, [startSpeechToText] is called
    exactly when the flag is set."  In the fallback path one call is one
    microphone request. *)
Definition restarts_exactly_when_flag_set
    (props : UseSpeechToTextTypes) (host : Host) : Prop :=
  forall (s s' : State) (k : nat) (c : bool) (json : CloudJson),
    fetches s !! k = Some c ->
    step props host s (Response k json) = Some s' ->
    count is_start_recording (emitted s s') = (if c then 1 else 0).

(** "The active track is stopped exactly once per stopped-speaking
    event; no other code path stops that track again for the same
    event."  The event's own chain is its handler, the WAV callback, the
    read, the response and the restart the response asks for. *)
Definition track_stopped_once_for_event
    (props : UseSpeechToTextTypes) (host : Host) : Prop :=
  forall (s s' : State) (i cur : nat) (d : string) (json : CloudJson),
    reachable props host s ->
    mediaStream s = Some cur ->
    run props host s
      [StoppedSpeaking i; WavReady (length (wavs s));
       LoadEnd (length (readers s)) d;
       Response (length (fetches s)) json; StreamSettled true] = Some s' ->
    count (is_track_stop cur) (emitted s s') = 1.

(** ** More observations *)

Definition is_recognition_call (e : Effect) : bool :=
  match e with ERecognitionStart | ERecognitionStop => true | _ => false end.

(** The calls only the fallback path makes. *)
Definition is_fallback_call (e : Effect) : bool :=
  match e with
  | ERecognitionStart | ERecognitionStop | EUncaught => false
  | _ => true
  end.

(** The endpoint the request is posted to, up to the key. *)
Definition endpoint : string :=
  "https://speech.googleapis.com/v1/speech:recognize?key=".

(** [useSpeechToText({crossBrowser: true, timeout: 0})] *)
Definition zero_timeout_props : UseSpeechToTextTypes :=
  {| continuous := None; crossBrowser := Some true; googleApiKey := None;
     onStartSpeaking := false; onStoppedSpeaking := false;
     timeout := Some 0%Z |}.

(** A recognition event with two results; the last has two alternatives. *)
Definition two_results : RecognitionEvent :=
  {| e_results := Some [ [ {| transcript := "hello" |} ];
                         [ {| transcript := "hello world" |};
                           {| transcript := "hollow world" |} ] ] |}.

(** Chromium Edge: the recognizer exists and is left alone. *)
Definition edge : Host :=
  {| isEdgeChromium := true; SpeechRecognition := true;
     getUserMedia := true; deviceSampleRate := 48000 |}.

(** * Properties *)

Section Properties.

Variable props : UseSpeechToTextTypes.
Variable host : Host.

Local Abbreviation step := (step props host).
Local Abbreviation run := (run props host).
Local Abbreviation reachable := (reachable props host).

(** ** Runs and reachable states *)

Lemma run_app (s : State) (evs1 evs2 : list Event) :
  run s (evs1 ++ evs2) =
  match run s evs1 with Some s' => run s' evs2 | None => None end.
Proof.
  revert s; induction evs1 as [|ev evs1 IH]; intros s; simpl; [done|].
  destruct (step s ev); [apply IH | done].
Qed.

Lemma run_reachable (s s' : State) (evs : list Event) :
  reachable s -> run s evs = Some s' -> reachable s'.
Proof.
  revert s; induction evs as [|ev evs IH]; intros s Hs Hrun; simpl in Hrun.
  - by inversion Hrun; subst.
  - destruct (step s ev) as [s1|] eqn:Hstep; [|done].
    eapply IH; [|exact Hrun]. by eapply reachable_step.
Qed.

(** ** C3: start is a no-op without recognizer and without crossBrowser *)

(** C3. When the native recognizer is unavailable and [crossBrowser] is
    not set, [startSpeechToText] returns the state it was given: the
    recording flag, the transcripts and the error are unchanged, no
    microphone request is pending, nothing is emitted. *)
Theorem start_is_noop_without_fallback (s : State) :
  recognition host = false ->
  truthy (crossBrowser props) = false ->
  startSpeechToText props host s = s /\ step s CallStart = Some s.
Proof.
  intros Hrec Hcross. unfold step, startSpeechToText.
  by rewrite Hrec, Hcross.
Qed.

(** ** C10: the auto-stop drops the audio *)

(** C10. When a timeout fires, [stopRecording] is called with
    [exportWAV] false and no callback: the transcripts are unchanged, no
    WAV export, FileReader read, request or microphone request is added,
    and the only calls made are the stop of the current track (if any)
    and that [stopRecording]. *)
Theorem auto_stop_discards_audio (s s' : State) (id : nat) :
  step s (TimeoutFires id) = Some s' ->
  results s' = results s /\ isRecording s' = false /\
  wavs s' = wavs s /\ readers s' = readers s /\ fetches s' = fetches s /\
  starts s' = starts s /\
  log s' = log s
           ++ match mediaStream s with Some sid => [ETrackStop sid] | None => [] end
           ++ [EStopRecording false None] /\
  count is_wav_export (emitted s s') = 0 /\
  count is_fetch (emitted s s') = 0.
Proof.
  unfold step. destruct (timers s !! id); [|done]. intros [= <-].
  unfold emitted, timeout_callback, stop_current_track; simpl.
  destruct (mediaStream s); simpl; rewrite ?app_nil_r, <- ?app_assoc;
    rewrite ?drop_app_length; simpl; repeat split; done.
Qed.

(** ** C1: what a response appends *)

Lemma results_startSpeechToText (s : State) :
  results (startSpeechToText props host s) = results s.
Proof.
  unfold startSpeechToText, chromeSpeechRecognition.
  destruct (recognition host); [done|].
  by destruct (truthy (crossBrowser props)).
Qed.

Lemma results_onloadend_response (c : bool) (json : CloudJson) (s : State) :
  results (onloadend_response props host c json s) =
  if has_results json then
    match first_transcript json with
    | Some t => results s ++ [t]
    | None => results s
    end
  else results s.
Proof.
  unfold onloadend_response, setResults.
  destruct (has_results json); [destruct (first_transcript json)|];
    destruct c; rewrite ?results_startSpeechToText; done.
Qed.

(** C1 (amended). A response whose result list is non-empty and whose
    first result has an alternative appends exactly one entry, the
    transcript of that alternative; a response whose result list is
    empty or absent appends nothing. *)
Theorem response_appends_first_transcript
    (s s' : State) (k : nat) (json : CloudJson) :
  step s (Response k json) = Some s' ->
  (forall r rs a alts,
      json_results json = Some (r :: rs) -> alternatives r = a :: alts ->
      results s' = results s ++ [transcript a]) /\
  (json_results json = Some [] \/ json_results json = None ->
   results s' = results s).
Proof.
  unfold step. destruct (fetches s !! k) as [c|]; [|done]. intros [= <-].
  rewrite results_onloadend_response. unfold has_results, first_transcript.
  split.
  - intros r rs a alts -> ->. done.
  - by intros [-> | ->].
Qed.

(** ** C4: the transcript list only grows at its end *)

(** Unfolds one turn of the event loop into the cases of its handler. *)
Ltac unfold_handlers :=
  unfold step, startRecording_settle, startSpeechToText_resume,
    handleRecordingTimeout, on_speaking, on_stopped_speaking,
    timeout_callback, stopSpeechToText, handleBlobToBase64, onloadend,
    onloadend_response, onresult, state_of, setResults, startSpeechToText,
    chromeSpeechRecognition, startRecording, stopRecording,
    stop_current_track, clearTimeout, setIsRecording, setError in *.

Ltac step_cases :=
  unfold_handlers; simplify_eq /=;
  repeat (case_match; simplify_eq /=).

Lemma results_useEffect (s : State) :
  results (useEffect props host s) = results s.
Proof.
  unfold useEffect, setError.
  repeat (case_match; simplify_eq /=); done.
Qed.

Lemma step_results (s s' : State) (ev : Event) :
  step s ev = Some s' ->
  results s' = results s \/ exists t, results s' = results s ++ [t].
Proof.
  intros H. destruct ev; step_cases; eauto.
Qed.

(** C4. Every operation of the hook (the mount effect, and every turn of
    the event loop) leaves the transcript list as it was or adds one
    element at its end. *)
Theorem results_append_only (s : State) :
  results (useEffect props host s) = results s /\
  forall (ev : Event) (s' : State),
    step s ev = Some s' ->
    results s' = results s \/ exists t, results s' = results s ++ [t].
Proof.
  split; [apply results_useEffect|].
  intros ev s' H. by eapply step_results.
Qed.

(** Along a run the old list stays a prefix of the new one. *)
Lemma results_prefix_along_run (s s' : State) (evs : list Event) :
  run s evs = Some s' ->
  exists added, results s' = results s ++ added /\ length added <= length evs.
Proof.
  revert s; induction evs as [|ev evs IH]; intros s Hrun; simpl in Hrun.
  - inversion Hrun; subst. exists []. by rewrite app_nil_r.
  - destruct (step s ev) as [s1|] eqn:Hstep; [|done].
    destruct (IH _ Hrun) as (added & Heq & Hlen).
    destruct (step_results _ _ _ Hstep) as [H1 | [t H1]].
    + exists added. rewrite Heq, H1. split; [done | simpl; lia].
    + exists (t :: added). rewrite Heq, H1, <- app_assoc.
      split; [done | simpl; lia].
Qed.

(** ** C5: the request *)

Lemma indexOf_from_absent (c : ascii) (p : string) (i : Z) :
  (0 <= i)%Z -> indexOf_from c p i = (-1)%Z ->
  forall (rest : string) (j : Z),
    indexOf_from c (p +:+ String c rest) j = (j + Z.of_nat (String.length p))%Z.
Proof.
  revert i; induction p as [|a p IH]; intros i Hi Habs rest j; simpl.
  - rewrite Ascii.eqb_refl. lia.
  - simpl in Habs. destruct (Ascii.eqb a c); [lia|].
    rewrite (IH (i + 1)%Z) by (lia || done). lia.
Qed.

Lemma drop_string_past (p rest : string) (c : ascii) :
  drop_string (S (String.length p)) (p +:+ String c rest) = rest.
Proof. induction p as [|a p IH]; simpl; [by destruct rest | exact IH]. Qed.

(** The payload is what follows the first comma of the data URL. *)
Lemma payload_after_first_comma (p payload : string) :
  indexOf comma p = (-1)%Z ->
  let dataUrl := p +:+ String comma payload in
  substr (indexOf comma dataUrl + 1)%Z dataUrl = payload.
Proof.
  intros Habs dataUrl. unfold dataUrl, indexOf.
  rewrite (indexOf_from_absent comma p 0) by (lia || done).
  unfold substr.
  replace (0 <=? 0 + Z.of_nat (String.length p) + 1)%Z with true
    by (symmetry; apply Z.leb_le; lia).
  replace (Z.to_nat (0 + Z.of_nat (String.length p) + 1))
    with (S (String.length p)) by lia.
  apply drop_string_past.
Qed.

Lemma capped_sampleRate_spec (s : State) (r : Z) :
  audioContextRef s = Some {| sampleRate := r |} ->
  capped_sampleRate s = Some (capped r).
Proof.
  unfold capped_sampleRate, capped. intros ->; simpl.
  destruct (48000 <? r)%Z eqn:Hlt; [|by rewrite andb_false_r].
  apply Z.ltb_lt in Hlt.
  replace (r =? 0)%Z with false by (symmetry; apply Z.eqb_neq; lia). done.
Qed.

(** The audio context is built on mount and never replaced. *)
Lemma reachable_audioContext (s : State) :
  reachable s ->
  audioContextRef s = Some {| sampleRate := deviceSampleRate host |}.
Proof.
  induction 1 as [|s ev s' _ IH Hstep].
  - unfold useEffect, setError. repeat (case_match; simplify_eq /=); done.
  - rewrite <- IH. clear IH. destruct ev; step_cases; done.
Qed.

(** C5. When a FileReader read ends in a reachable state with the data
    URL [p,payload] ([p] free of commas), exactly one request is sent; it
    carries encoding LINEAR16, the payload after the first comma, and the
    audio context's sample rate capped at 48000. *)
Theorem request_is_capped_linear16
    (s s' : State) (k : nat) (p payload : string) :
  reachable s ->
  indexOf comma p = (-1)%Z ->
  step s (LoadEnd k (p +:+ String comma payload)) = Some s' ->
  exists req,
    emitted s s' = [EFetch req] /\
    encoding req = "LINEAR16" /\
    content req = payload /\
    sampleRateHertz req = Some (capped (deviceSampleRate host)) /\
    ((48000 < deviceSampleRate host)%Z -> sampleRateHertz req = Some 48000%Z) /\
    ((deviceSampleRate host <= 48000)%Z ->
     sampleRateHertz req = Some (deviceSampleRate host)).
Proof.
  intros Hreach Hp Hstep. unfold step in Hstep.
  destruct (readers s !! k) as [c|]; [|done]. injection Hstep as <-.
  eexists. unfold emitted, onloadend; simpl.
  rewrite drop_app_length. split; [reflexivity|]. simpl.
  split; [done|]. split; [by apply payload_after_first_comma|].
  assert (Hrate : capped_sampleRate (set_readers (delete k (readers s)) s)
                  = Some (capped (deviceSampleRate host))).
  { apply capped_sampleRate_spec; simpl. by apply reachable_audioContext. }
  rewrite Hrate. unfold capped. split; [done|]. split; intros Hr.
  - by replace (48000 <? deviceSampleRate host)%Z with true
      by (symmetry; apply Z.ltb_lt; lia).
  - by replace (48000 <? deviceSampleRate host)%Z with false
      by (symmetry; apply Z.ltb_ge; lia).
Qed.

(** Every request in the log of a reachable state is LINEAR16 at the
    capped rate. *)
Lemma every_request_capped_linear16 (s : State) (req : Request) :
  reachable s -> EFetch req ∈ log s ->
  encoding req = "LINEAR16" /\
  sampleRateHertz req = Some (capped (deviceSampleRate host)).
Proof.
  intros Hreach; revert req.
  induction Hreach as [|s ev s' Hreach IH Hstep]; intros req Hin.
  - unfold useEffect, setError in Hin.
    repeat (case_match; simplify_eq /=); by apply elem_of_nil in Hin.
  - pose proof (reachable_audioContext _ Hreach) as Hctx.
    destruct ev; step_cases;
      repeat (apply elem_of_app in Hin as [Hin | Hin]);
      try (by apply IH);
      repeat (apply elem_of_cons in Hin as [Hin | Hin]; simplify_eq /=);
      try (by apply elem_of_nil in Hin); try (by apply IH).
    split; [done|]. by apply capped_sampleRate_spec.
Qed.

(** ** C8: the error string *)

Lemma error_useEffect_initial :
  error (useEffect props host initial) =
  if negb (getUserMedia host) then unsupported_getUserMedia
  else if negb (truthy (crossBrowser props)) && negb (recognition host)
       then unsupported_recognition else "".
Proof.
  unfold useEffect, setError.
  repeat (case_match; simplify_eq /=); done.
Qed.

Lemma reachable_error_descriptive (s : State) :
  reachable s -> descriptive (error s).
Proof.
  unfold descriptive.
  induction 1 as [|s ev s' _ IH Hstep].
  - rewrite error_useEffect_initial.
    repeat (case_match; simplify_eq /=); auto.
  - destruct ev; step_cases; auto.
Qed.

(** C8. The error is one string, overwritten by each write.  On mount it
    becomes the recognition-unsupported message when there is no native
    recognizer and [crossBrowser] is not set, and then the getUserMedia
    message when getUserMedia is unsupported; a denied microphone during
    start makes it 'Microphone permission was denied'; it never holds
    anything but the empty string or one of these three messages. *)
Theorem error_is_last_descriptive_message :
  (forall v s, error (setError v s) = v) /\
  (recognition host = false -> truthy (crossBrowser props) = false ->
   getUserMedia host = true ->
   error (useEffect props host initial) = unsupported_recognition) /\
  (getUserMedia host = false ->
   error (useEffect props host initial) = unsupported_getUserMedia) /\
  (forall s s', step s (StreamSettled false) = Some s' ->
                error s' = permission_denied) /\
  (forall s, reachable s -> descriptive (error s)).
Proof.
  split; [done|]. split; [|split; [|split]].
  - intros Hrec Hcross Hgum. rewrite error_useEffect_initial.
    by rewrite Hrec, Hcross, Hgum.
  - intros Hgum. rewrite error_useEffect_initial. by rewrite Hgum.
  - intros s s' Hstep. step_cases; done.
  - apply reachable_error_descriptive.
Qed.

(** ** C6 and C9: who restarts recording *)

Lemma lookup_snoc {A} (l : list A) (x : A) : (l ++ [x]) !! length l = Some x.
Proof. by apply list_lookup_middle. Qed.

Lemma delete_snoc {A} (l : list A) (x : A) : delete (length l) (l ++ [x]) = l.
Proof. induction l as [|a l IH]; simpl; [done | by rewrite IH]. Qed.

Lemma count_app (p : Effect -> bool) (l1 l2 : list Effect) :
  count p (l1 ++ l2) = count p l1 + count p l2.
Proof. induction l1 as [|e l1 IH]; simpl; [done | rewrite IH; lia]. Qed.

(** The log only grows. *)
Lemma step_log_grows (s s' : State) (ev : Event) :
  step s ev = Some s' -> exists l, log s' = log s ++ l.
Proof.
  intros H. destruct ev; step_cases;
    rewrite <- ?app_assoc; eauto; by (exists []; rewrite app_nil_r).
Qed.

(** In the fallback path [startSpeechToText] asks for the microphone. *)
Lemma startSpeechToText_fallback (s : State) :
  recognition host = false -> truthy (crossBrowser props) = true ->
  startSpeechToText props host s = startRecording s.
Proof. intros Hrec Hcross. unfold startSpeechToText. by rewrite Hrec, Hcross. Qed.

(** What the response handler does with its flag when its updater does
    not throw: the microphone is asked for once when the flag is set,
    not at all otherwise. *)
Lemma response_restarts_iff_flag (s s' : State) (k : nat) (c : bool)
    (json : CloudJson) :
  recognition host = false -> truthy (crossBrowser props) = true ->
  (has_results json = true -> is_Some (first_transcript json)) ->
  fetches s !! k = Some c ->
  step s (Response k json) = Some s' ->
  starts s' = starts s + (if c then 1 else 0) /\
  count is_start_recording (emitted s s') = (if c then 1 else 0).
Proof.
  intros Hrec Hcross Hjson Hk Hstep. unfold step in Hstep. rewrite Hk in Hstep.
  injection Hstep as <-. unfold onloadend_response, emitted, setResults.
  destruct (has_results json);
    [destruct Hjson as [t ->]; [done|] |];
    destruct c; rewrite ?startSpeechToText_fallback by done;
    unfold startRecording; simpl;
    rewrite <- ?app_assoc, ?drop_app_length, ?drop_all; simpl; split; lia.
Qed.

(** The flag travels unchanged from the WAV callback to the request. *)
Lemma flag_carried_to_request (s : State) (k : nat) (c : bool) (d : string) :
  wavs s !! k = Some c ->
  exists s1 s2,
    step s (WavReady k) = Some s1 /\
    readers s1 = readers s ++ [c] /\
    step s1 (LoadEnd (length (readers s)) d) = Some s2 /\
    fetches s2 = fetches s ++ [c] /\ starts s2 = starts s /\
    count is_start_recording (emitted s s2) = 0.
Proof.
  intros Hk. eexists _, _. unfold step at 1. rewrite Hk.
  split; [reflexivity|]. split; [reflexivity|].
  unfold step, handleBlobToBase64; simpl. rewrite lookup_snoc.
  split; [reflexivity|]. unfold emitted; simpl.
  rewrite <- ?app_assoc, drop_app_length. done.
Qed.

(** C6 (amended). In the fallback path, a stopped-speaking event hands
    the WAV callback the hook's [continuous] flag; the flag reaches the
    response handler unchanged; and for a response whose result list is
    empty or absent, or whose first result has an alternative, the
    handler calls [startSpeechToText], which asks for the microphone,
    exactly when the flag is set.  So after such a response has been
    processed, recording has been restarted if and only if [continuous]
    is true. *)
Theorem restart_after_speech_iff_continuous
    (s : State) (i : nat) (d : string) (json : CloudJson) :
  recognition host = false ->
  truthy (crossBrowser props) = true ->
  (has_results json = true -> is_Some (first_transcript json)) ->
  is_Some (harks s !! i) ->
  exists s1 s2 s3 s4,
    step s (StoppedSpeaking i) = Some s1 /\
    wavs s1 = wavs s ++ [truthy (continuous props)] /\
    step s1 (WavReady (length (wavs s))) = Some s2 /\
    step s2 (LoadEnd (length (readers s)) d) = Some s3 /\
    fetches s3 = fetches s ++ [truthy (continuous props)] /\
    step s3 (Response (length (fetches s)) json) = Some s4 /\
    starts s4 = starts s + (if truthy (continuous props) then 1 else 0) /\
    count is_start_recording (emitted s s4)
    = (if truthy (continuous props) then 1 else 0).
Proof.
  intros Hrec Hcross Hjson [sid Hsid].
  set (c := truthy (continuous props)).
  assert (H1 : exists s1, step s (StoppedSpeaking i) = Some s1 /\
             wavs s1 = wavs s ++ [c] /\ readers s1 = readers s /\
             fetches s1 = fetches s /\ starts s1 = starts s /\
             exists l, log s1 = log s ++ l /\ count is_start_recording l = 0).
  { eexists. unfold step. rewrite Hsid. split; [reflexivity|].
    unfold on_stopped_speaking, stopRecording, stop_current_track,
      setIsRecording. fold c.
    replace (if c then true else false) with c by (by destruct c).
    destruct (onStoppedSpeaking props); simpl;
      destruct (mediaStream s); simpl;
      rewrite <- ?app_assoc; repeat split; eauto. }
  destruct H1 as (s1 & Hs1 & Hw1 & Hr1 & Hf1 & Hst1 & l1 & Hl1 & Hc1).
  assert (Hk : wavs s1 !! length (wavs s) = Some c)
    by (rewrite Hw1; apply lookup_snoc).
  destruct (flag_carried_to_request s1 _ c d Hk)
    as (s2 & s3 & Hs2 & Hr2 & Hs3 & Hf3 & Hst3 & Hc3).
  rewrite Hr1 in Hs3. rewrite Hf1 in Hf3.
  assert (Hk3 : fetches s3 !! length (fetches s) = Some c)
    by (rewrite Hf3; apply lookup_snoc).
  assert (H4 : exists s4, step s3 (Response (length (fetches s)) json) = Some s4).
  { unfold step. rewrite Hk3. eauto. }
  destruct H4 as [s4 Hs4].
  destruct (response_restarts_iff_flag s3 s4 _ c json Hrec Hcross Hjson
              Hk3 Hs4) as [Hst4 Hc4].
  exists s1, s2, s3, s4. repeat (split; [done|]).
  split; [lia|].
  destruct (step_log_grows _ _ _ Hs2) as [l2 Hl2].
  destruct (step_log_grows _ _ _ Hs3) as [l3 Hl3].
  destruct (step_log_grows _ _ _ Hs4) as [l4 Hl4].
  unfold emitted in *.
  rewrite Hl4, Hl3, Hl2, Hl1, <- !app_assoc, drop_app_length.
  rewrite Hl4, drop_app_length in Hc4.
  rewrite Hl3, Hl2, <- !app_assoc, drop_app_length in Hc3.
  rewrite !count_app in *. lia.
Qed.

(** A response handled with the flag unset asks for nothing. *)
Lemma response_without_flag (s s' : State) (k : nat) (json : CloudJson) :
  fetches s !! k = Some false ->
  step s (Response k json) = Some s' ->
  starts s' = starts s /\ isRecording s' = isRecording s /\
  count is_start_recording (emitted s s') = 0.
Proof.
  intros Hk Hstep. unfold step in Hstep. rewrite Hk in Hstep.
  injection Hstep as <-. unfold onloadend_response, emitted, setResults.
  repeat (case_match; simplify_eq /=);
    rewrite ?drop_app_length, ?drop_all; done.
Qed.

(** C9. In the fallback path a manual [stopSpeechToText] hands the WAV
    callback the flag false, whatever [continuous] is; the flag reaches
    the response handler unchanged, and the handler then does not call
    [startSpeechToText]: no microphone request is made along the way and
    the recording flag stays false. *)
Theorem manual_stop_never_restarts
    (s : State) (d : string) (json : CloudJson) :
  recognition host = false ->
  exists s1 s2 s3 s4,
    step s CallStop = Some s1 /\
    wavs s1 = wavs s ++ [false] /\
    emitted s s1 =
      match mediaStream s with Some sid => [ETrackStop sid] | None => [] end
      ++ [EStopRecording true (Some false)] /\
    step s1 (WavReady (length (wavs s))) = Some s2 /\
    step s2 (LoadEnd (length (readers s)) d) = Some s3 /\
    fetches s3 = fetches s ++ [false] /\
    step s3 (Response (length (fetches s)) json) = Some s4 /\
    starts s4 = starts s /\
    isRecording s4 = false /\
    count is_start_recording (emitted s s4) = 0.
Proof.
  intros Hrec.
  assert (H1 : exists s1, step s CallStop = Some s1 /\
             wavs s1 = wavs s ++ [false] /\ readers s1 = readers s /\
             fetches s1 = fetches s /\ starts s1 = starts s /\
             isRecording s1 = false /\
             log s1 = log s ++
               match mediaStream s with Some sid => [ETrackStop sid] | None => [] end
               ++ [EStopRecording true (Some false)]).
  { eexists. unfold step, stopSpeechToText. rewrite Hrec.
    split; [reflexivity|].
    unfold stopRecording, stop_current_track, setIsRecording; simpl.
    destruct (mediaStream s); simpl; rewrite <- ?app_assoc; done. }
  destruct H1 as (s1 & Hs1 & Hw1 & Hr1 & Hf1 & Hst1 & Hrec1 & Hl1).
  assert (Hk : wavs s1 !! length (wavs s) = Some false)
    by (rewrite Hw1; apply lookup_snoc).
  destruct (flag_carried_to_request s1 _ false d Hk)
    as (s2 & s3 & Hs2 & Hr2 & Hs3 & Hf3 & Hst3 & Hc3).
  rewrite Hr1 in Hs3. rewrite Hf1 in Hf3.
  assert (Hk3 : fetches s3 !! length (fetches s) = Some false)
    by (rewrite Hf3; apply lookup_snoc).
  assert (H4 : exists s4, step s3 (Response (length (fetches s)) json) = Some s4).
  { unfold step. rewrite Hk3. eauto. }
  destruct H4 as [s4 Hs4].
  destruct (response_without_flag s3 s4 _ json Hk3 Hs4) as (Hst4 & Hrec4 & Hc4).
  assert (Hrec3 : isRecording s3 = false).
  { clear - Hs2 Hs3 Hrec1. rewrite <- Hrec1. clear Hrec1.
    unfold step in Hs2, Hs3. repeat (case_match; simplify_eq /=). done. }
  exists s1, s2, s3, s4. repeat (split; [done|]).
  split; [by unfold emitted; rewrite Hl1, drop_app_length|].
  repeat (split; [done|]).
  split; [lia|]. split; [congruence|].
  destruct (step_log_grows _ _ _ Hs2) as [l2 Hl2].
  destruct (step_log_grows _ _ _ Hs3) as [l3 Hl3].
  destruct (step_log_grows _ _ _ Hs4) as [l4 Hl4].
  unfold emitted in *.
  rewrite Hl4, Hl3, Hl2, Hl1, <- !app_assoc, drop_app_length.
  rewrite Hl4, drop_app_length in Hc4.
  rewrite Hl3, Hl2, <- !app_assoc, drop_app_length in Hc3.
  rewrite !count_app in *.
  assert (count is_start_recording
            match mediaStream s with Some sid => [ETrackStop sid] | None => [] end = 0)
    by (by destruct (mediaStream s)).
  simpl. lia.
Qed.

(** ** C7: the track stops a stopped-speaking event causes *)

(** A Hark listener exists only once [mediaStream.current] is set. *)
Lemma reachable_hark_has_stream (s : State) :
  reachable s -> harks s = [] \/ is_Some (mediaStream s).
Proof.
  induction 1 as [|s ev s' _ IH Hstep].
  - left. unfold useEffect, setError.
    repeat (case_match; simplify_eq /=); done.
  - destruct ev; step_cases; auto; try (by right);
      destruct IH as [? | [? ?]]; auto; done.
Qed.

(** The WAV callback, the end of a read and a response stop no track
    and leave the stored stream alone. *)
Lemma export_chain_stops_no_track (s s' : State) (ev : Event) (cur : nat) :
  (exists k, ev = WavReady k) \/ (exists k d, ev = LoadEnd k d) \/
  (exists k json, ev = Response k json) ->
  step s ev = Some s' ->
  mediaStream s' = mediaStream s /\
  exists l, log s' = log s ++ l /\ count (is_track_stop cur) l = 0.
Proof.
  intros [[k ->] | [(k & d & ->) | (k & json & ->)]] Hstep;
    step_cases; (split; [done|]);
    rewrite <- ?app_assoc; eauto; by (exists []; rewrite app_nil_r).
Qed.

(** A granted start stops the track of the stream it finds stored. *)
Lemma granted_start_stops_stored_track (s s' : State) (cur : nat) :
  mediaStream s = Some cur ->
  step s (StreamSettled true) = Some s' ->
  log s' = log s ++ [ETrackStop cur].
Proof. intros Hcur Hstep. step_cases; done. Qed.

(** C7 (amended). A stopped-speaking event in a reachable state finds a
    current media stream; its handler sets [isRecording] to false, calls
    [stop] on that stream's first audio track once, and calls
    [stopRecording] once, with [exportWAV] set and one callback.  The
    WAV callback, the read and the response that follow do not stop that
    track again; a start that resumes after them (the restart the
    response asks for when [continuous] is set) stops it once more
    before it replaces the stream. *)
Theorem stopped_speaking_track_stops
    (s : State) (i : nat) (d : string) (json : CloudJson) :
  reachable s ->
  is_Some (harks s !! i) ->
  exists cur s1 s2 s3 s4,
    mediaStream s = Some cur /\
    step s (StoppedSpeaking i) = Some s1 /\
    isRecording s1 = false /\
    emitted s s1 =
      (if onStoppedSpeaking props then [EOnStoppedSpeaking] else [])
      ++ [ETrackStop cur;
          EStopRecording true (Some (truthy (continuous props)))] /\
    count (is_track_stop cur) (emitted s s1) = 1 /\
    count is_wav_export (emitted s s1) = 1 /\
    wavs s1 = wavs s ++ [truthy (continuous props)] /\
    step s1 (WavReady (length (wavs s))) = Some s2 /\
    step s2 (LoadEnd (length (readers s)) d) = Some s3 /\
    step s3 (Response (length (fetches s)) json) = Some s4 /\
    mediaStream s4 = Some cur /\
    count (is_track_stop cur) (emitted s s4) = 1 /\
    forall s5,
      step s4 (StreamSettled true) = Some s5 ->
      count (is_track_stop cur) (emitted s s5) = 2.
Proof.
  intros Hreach [h Hh].
  destruct (reachable_hark_has_stream s Hreach) as [Hnil | [cur Hcur]];
    [by rewrite Hnil in Hh|].
  set (c := truthy (continuous props)).
  assert (H1 : exists s1, step s (StoppedSpeaking i) = Some s1 /\
             isRecording s1 = false /\ mediaStream s1 = Some cur /\
             wavs s1 = wavs s ++ [c] /\ readers s1 = readers s /\
             fetches s1 = fetches s /\
             log s1 = log s ++
               (if onStoppedSpeaking props then [EOnStoppedSpeaking] else [])
               ++ [ETrackStop cur; EStopRecording true (Some c)]).
  { eexists. unfold step. rewrite Hh. split; [reflexivity|].
    unfold on_stopped_speaking, stopRecording, stop_current_track,
      setIsRecording. fold c.
    replace (if c then true else false) with c by (by destruct c).
    destruct (onStoppedSpeaking props); simpl; rewrite Hcur; simpl;
      rewrite <- ?app_assoc; done. }
  destruct H1 as (s1 & Hs1 & Hrec1 & Hm1 & Hw1 & Hr1 & Hf1 & Hl1).
  assert (Hk : wavs s1 !! length (wavs s) = Some c)
    by (rewrite Hw1; apply lookup_snoc).
  destruct (flag_carried_to_request s1 _ c d Hk)
    as (s2 & s3 & Hs2 & _ & Hs3 & Hf3 & _ & _).
  rewrite Hr1 in Hs3. rewrite Hf1 in Hf3.
  assert (H4 : exists s4, step s3 (Response (length (fetches s)) json) = Some s4).
  { unfold step. rewrite Hf3, lookup_snoc. eauto. }
  destruct H4 as [s4 Hs4].
  destruct (export_chain_stops_no_track s1 s2 _ cur
              (or_introl (ex_intro _ _ eq_refl)) Hs2) as (Hm2 & l2 & Hl2 & Hc2).
  destruct (export_chain_stops_no_track s2 s3 _ cur
              (or_intror (or_introl (ex_intro _ _ (ex_intro _ _ eq_refl)))) Hs3)
    as (Hm3 & l3 & Hl3 & Hc3).
  destruct (export_chain_stops_no_track s3 s4 _ cur
              (or_intror (or_intror (ex_intro _ _ (ex_intro _ _ eq_refl)))) Hs4)
    as (Hm4 & l4 & Hl4 & Hc4).
  assert (Hm : mediaStream s4 = Some cur) by congruence.
  assert (Hcb : count (is_track_stop cur)
                  (if onStoppedSpeaking props then [EOnStoppedSpeaking] else [])
                = 0) by (by destruct (onStoppedSpeaking props)).
  exists cur, s1, s2, s3, s4. unfold emitted.
  split; [done|]. split; [done|]. split; [done|].
  rewrite Hl1, drop_app_length.
  split; [done|].
  split; [rewrite count_app, Hcb; simpl; by rewrite Nat.eqb_refl|].
  split; [rewrite count_app; by destruct (onStoppedSpeaking props)|].
  repeat (split; [done|]).
  split.
  - rewrite Hl4, Hl3, Hl2, Hl1, <- !app_assoc, drop_app_length.
    rewrite !count_app, Hcb, Hc2, Hc3, Hc4; simpl.
    by rewrite Nat.eqb_refl.
  - intros s5 Hs5.
    rewrite (granted_start_stops_stored_track s4 s5 cur Hm Hs5).
    rewrite Hl4, Hl3, Hl2, Hl1, <- !app_assoc, drop_app_length.
    rewrite !count_app, Hcb, Hc2, Hc3, Hc4; simpl.
    by rewrite Nat.eqb_refl.
Qed.

(** ** C2: the auto-stop *)

(** Timeout ids are handed out in increasing order: the stored handle
    and every pending timeout are older than the next id. *)
Lemma reachable_timers_fresh (s : State) :
  reachable s ->
  (forall tid, timeoutId s = Some tid -> tid < next_timer s) /\
  (forall id, is_Some (timers s !! id) -> id < next_timer s).
Proof.
  induction 1 as [|s ev s' _ [IH1 IH2] Hstep].
  - unfold useEffect, setError.
    repeat (case_match; simplify_eq /=);
      (split; [done | intros id [? Hid]; by rewrite lookup_empty in Hid]).
  - destruct ev; step_cases; split; intros x Hx; simplify_eq /=;
      try (by apply IH1); try (by apply IH2); try lia;
      repeat match goal with
      | H : is_Some (<[_:=_]> _ !! _) |- _ =>
          apply lookup_insert_is_Some in H as [-> | [_ H]]
      | H : is_Some (delete _ _ !! _) |- _ =>
          apply lookup_delete_is_Some in H as [_ H]
      end;
      try lia;
      try (by apply Nat.lt_lt_succ_r, IH2);
      try (by apply Nat.lt_lt_succ_r, IH1);
      try (by apply IH2).
Qed.

(** Once a timeout is gone it stays gone: no later turn re-creates an
    old id. *)
Lemma step_cleared_stays (s s' : State) (ev : Event) (tid : nat) :
  tid < next_timer s -> timers s !! tid = None ->
  step s ev = Some s' ->
  tid < next_timer s' /\ timers s' !! tid = None.
Proof.
  intros Hlt Hnone Hstep.
  destruct ev; step_cases; split; try done; try lia;
    rewrite ?lookup_delete_None, ?lookup_insert_None; auto;
    try (split; [|lia]);
    rewrite ?lookup_delete_None, ?lookup_insert_None; auto.
Qed.

Lemma run_cleared_stays (s s' : State) (evs : list Event) (tid : nat) :
  tid < next_timer s -> timers s !! tid = None ->
  run s evs = Some s' ->
  tid < next_timer s' /\ timers s' !! tid = None.
Proof.
  revert s; induction evs as [|ev evs IH]; intros s Hlt Hnone Hrun;
    simpl in Hrun.
  - by inversion Hrun; subst.
  - destruct (step s ev) as [s1|] eqn:Hstep; [|done].
    destruct (step_cleared_stays _ _ _ _ Hlt Hnone Hstep) as [Hlt1 Hnone1].
    by eapply IH.
Qed.

(** What the code does keep of the auto-stop.  With a timeout
    configured, a start that takes the fallback path schedules, when its
    microphone request settles, an auto-stop with the configured delay
    and stores its handle.  An
    auto-stop that fires sets [isRecording] to false and stops the
    current track.  A speaking event clears the auto-stop whose handle is
    stored at that moment, that is the most recently scheduled one: from
    then on it is never pending again and cannot fire. *)
Theorem auto_stop_cleared_while_handle_stored (s : State) :
  reachable s ->
  truthy_number (timeout props) = true ->
  (recognition host = false -> truthy (crossBrowser props) = true ->
   exists s1, step s CallStart = Some s1 /\ starts s1 = S (starts s)) /\
  (forall granted s',
      step s (StreamSettled granted) = Some s' ->
      timers s !! next_timer s = None /\
      timeoutId s' = Some (next_timer s) /\
      timers s' = <[next_timer s := timeout props]> (timers s)) /\
  (forall id s',
      step s (TimeoutFires id) = Some s' ->
      is_Some (timers s !! id) /\
      timers s' = delete id (timers s) /\
      isRecording s' = false /\
      emitted s s' =
        match mediaStream s with Some sid => [ETrackStop sid] | None => [] end
        ++ [EStopRecording false None]) /\
  (forall i tid s',
      timeoutId s = Some tid ->
      step s (Speaking i) = Some s' ->
      forall evs s'',
        run s' evs = Some s'' ->
        timers s'' !! tid = None /\ step s'' (TimeoutFires tid) = None).
Proof.
  intros Hreach Htimeout.
  destruct (reachable_timers_fresh s Hreach) as [Hid Hpending].
  split; [|split; [|split]].
  - intros Hrec Hcross. eexists. unfold step.
    rewrite startSpeechToText_fallback by done. done.
  - intros granted s' Hstep.
    assert (Hfresh : timers s !! next_timer s = None).
    { destruct (timers s !! next_timer s) eqn:E; [|done].
      assert (next_timer s < next_timer s) by (apply Hpending; eauto). lia. }
    split; [done|]. clear Hfresh.
    unfold step in Hstep. destruct (starts s); [done|].
    unfold startRecording_settle, startSpeechToText_resume,
      handleRecordingTimeout, setError in Hstep.
    rewrite Htimeout in Hstep.
    destruct granted; repeat (case_match; simplify_eq /=); done.
  - intros id s' Hstep. unfold step in Hstep.
    destruct (timers s !! id) eqn:E; [|done]. injection Hstep as <-.
    split; [eauto|].
    unfold emitted, timeout_callback, stopRecording, stop_current_track,
      setIsRecording; simpl.
    destruct (mediaStream s); simpl;
      rewrite <- ?app_assoc, drop_app_length; done.
  - intros i tid s' Htid Hstep evs s'' Hrun.
    assert (Hs' : tid < next_timer s' /\ timers s' !! tid = None).
    { pose proof (Hid _ Htid) as Hlt. unfold step in Hstep.
      destruct (harks s !! i); [|done]. injection Hstep as <-.
      unfold on_speaking, clearTimeout.
      destruct (onStartSpeaking props); simpl; rewrite Htid; simpl;
        (split; [done | apply lookup_delete_eq]). }
    destruct Hs' as [Hlt' Hnone'].
    destruct (run_cleared_stays _ _ _ _ Hlt' Hnone' Hrun) as [_ Hnone''].
    split; [done|]. unfold step. by rewrite Hnone''.
Qed.

(** * Further properties of the hook *)

(** ** The native recognizer *)

Lemma last_transcript_snoc (earlier : list (list Alternative))
    (r : list Alternative) :
  last_transcript (earlier ++ [r]) =
  match r with a :: _ => Some (transcript a) | [] => None end.
Proof.
  unfold last_transcript. rewrite length_app; simpl.
  replace (length earlier + 1 - 1) with (length earlier) by lia.
  by rewrite lookup_snoc.
Qed.

(** [recognition.onresult] appends the transcript of the first
    alternative of the last result of the event; an event without
    results, with an empty result list, or whose last result has no
    alternative appends nothing.  The recording flag is not touched. *)
Theorem onresult_appends_last_result (s s' : State) (e : RecognitionEvent) :
  step s (OnResult e) = Some s' ->
  (forall earlier a alts,
      e_results e = Some (earlier ++ [a :: alts]) ->
      results s' = results s ++ [transcript a]) /\
  (e_results e = None \/ e_results e = Some [] \/
   (exists earlier, e_results e = Some (earlier ++ [[]])) ->
   results s' = results s) /\
  isRecording s' = isRecording s.
Proof.
  unfold step. destruct (recognition_handlers s); [|done]. intros [= <-].
  unfold onresult, setResults. split; [|split].
  - intros earlier a alts ->. by rewrite last_transcript_snoc.
  - intros [-> | [-> | [earlier ->]]]; [done | done |].
    by rewrite last_transcript_snoc.
  - destruct (e_results e) as [l|]; [|done].
    by destruct (last_transcript l).
Qed.

(** With a native recognizer the fallback machinery stays idle: in
    every reachable state no microphone request, Hark listener, timeout,
    media stream, WAV export, read or request exists, and none of the
    fallback path's calls has been made. *)
Theorem native_path_never_uses_fallback (s : State) :
  recognition host = true ->
  reachable s ->
  starts s = 0 /\ harks s = [] /\ timers s = ∅ /\ timeoutId s = None /\
  mediaStream s = None /\ wavs s = [] /\ readers s = [] /\ fetches s = [] /\
  count is_fallback_call (log s) = 0.
Proof.
  intros Hrec. induction 1 as [|s ev s' _ IH Hstep].
  - unfold useEffect, setError.
    repeat (case_match; simplify_eq /=); repeat split; done.
  - destruct IH as (I1 & I2 & I3 & I4 & I5 & I6 & I7 & I8 & I9).
    destruct ev; unfold_handlers; rewrite ?Hrec in Hstep;
      rewrite ?I1, ?I2, ?I3, ?I6, ?I7, ?I8, ?lookup_nil, ?lookup_empty in Hstep;
      simplify_eq /=; repeat (case_match; simplify_eq /=);
      rewrite ?count_app; simpl; repeat split; (done || lia).
Qed.

(** Without a native recognizer (none in the browser, or Chromium Edge)
    the recognizer is never touched: its handlers are never installed,
    so no recognition event can reach the hook, and neither
    [recognition.start()] nor [recognition.stop()] is ever called. *)
Theorem fallback_never_uses_recognizer (s : State) :
  recognition host = false ->
  reachable s ->
  recognition_handlers s = false /\
  (forall e, step s (OnResult e) = None) /\
  step s OnAudioStart = None /\ step s OnAudioEnd = None /\
  count is_recognition_call (log s) = 0.
Proof.
  intros Hrec Hreach.
  assert (H : recognition_handlers s = false /\
              count is_recognition_call (log s) = 0).
  { induction Hreach as [|s ev s' _ [IH1 IH2] Hstep].
    - unfold useEffect, setError.
      repeat (case_match; simplify_eq /=); done.
    - destruct ev; unfold_handlers; rewrite ?Hrec in Hstep;
        simplify_eq /=; repeat (case_match; simplify_eq /=);
        rewrite ?count_app; simpl; split; (done || lia). }
  destruct H as [H1 H2]. unfold step. rewrite H1. done.
Qed.

(** ** Streams and listeners *)

(** With neither recognizer nor [crossBrowser] the hook never records:
    in every reachable state [isRecording] is false, and no microphone
    request, Hark listener, timeout or media stream exists. *)
Theorem unsupported_never_records (s : State) :
  recognition host = false ->
  truthy (crossBrowser props) = false ->
  reachable s ->
  isRecording s = false /\ starts s = 0 /\ harks s = [] /\
  timers s = ∅ /\ mediaStream s = None /\
  count is_start_recording (log s) = 0.
Proof.
  intros Hrec Hcross Hreach.
  assert (H : recognition_handlers s = false /\
              isRecording s = false /\ starts s = 0 /\ harks s = [] /\
              timers s = ∅ /\ mediaStream s = None /\
              count is_start_recording (log s) = 0);
    [|by destruct H as [_ H]].
  induction Hreach as [|s ev s' _ IH Hstep].
  - unfold useEffect, setError.
    repeat (case_match; simplify_eq /=); repeat split; done.
  - destruct IH as (I0 & I1 & I2 & I3 & I4 & I5 & I6).
    destruct ev; unfold_handlers; rewrite ?Hrec, ?Hcross in Hstep;
      rewrite ?I0, ?I2, ?I3, ?I4, ?I5, ?lookup_nil, ?lookup_empty in Hstep;
      simplify_eq /=; repeat (case_match; simplify_eq /=);
      rewrite ?count_app; simpl; repeat split; (done || lia).
Qed.

(** Stream ids are handed out in increasing order. *)
Lemma reachable_streams_fresh (s : State) :
  reachable s ->
  (forall m, mediaStream s = Some m -> m < next_stream s) /\
  (forall h, h ∈ harks s -> h < next_stream s).
Proof.
  induction 1 as [|s ev s' _ [IH1 IH2] Hstep].
  - unfold useEffect, setError.
    repeat (case_match; simplify_eq /=);
      (split; [done | intros h Hh; by apply elem_of_nil in Hh]).
  - destruct ev; step_cases; split; intros x Hx; simplify_eq /=;
      try (by apply IH1); try (by apply IH2); try lia;
      try (apply elem_of_app in Hx as [Hx | Hx];
           [apply IH2 in Hx; lia | apply list_elem_of_singleton in Hx; lia]).
Qed.

(** When the microphone is granted, [startSpeechToText] stops the track
    of the stream it held, if any, and replaces it with a clone that no
    earlier listener was attached to; one Hark listener is added for the
    clone, [isRecording] becomes true and the error is left as it was. *)
Theorem granted_start_installs_fresh_stream (s s' : State) :
  reachable s ->
  step s (StreamSettled true) = Some s' ->
  exists clone,
    mediaStream s' = Some clone /\ mediaStream s <> Some clone /\
    (clone ∉ harks s) /\ harks s' = harks s ++ [clone] /\
    isRecording s' = true /\ error s' = error s /\
    starts s = S (starts s') /\
    emitted s s' =
      match mediaStream s with Some prev => [ETrackStop prev] | None => [] end.
Proof.
  intros Hreach Hstep.
  destruct (reachable_streams_fresh s Hreach) as [Hm Hh].
  exists (S (next_stream s)).
  assert (Hnew1 : mediaStream s <> Some (S (next_stream s))).
  { intros E. apply Hm in E. lia. }
  assert (Hnew2 : S (next_stream s) ∉ harks s).
  { intros E. apply Hh in E. lia. }
  unfold emitted. step_cases;
    rewrite ?drop_app_length, ?drop_all; repeat split; done.
Qed.

(** The stored media stream is the one the newest Hark listener is
    attached to. *)
Theorem mediaStream_is_newest_listener (s : State) :
  reachable s -> mediaStream s = last (harks s).
Proof.
  induction 1 as [|s ev s' _ IH Hstep].
  - unfold useEffect, setError.
    repeat (case_match; simplify_eq /=); done.
  - destruct ev; step_cases; rewrite ?last_snoc; try done; congruence.
Qed.

(** Hark listeners are never removed: a listener that exists stays
    registered, at the same position, whatever happens next. *)
Theorem listeners_are_never_removed
    (s s' : State) (evs : list Event) (i h : nat) :
  harks s !! i = Some h ->
  run s evs = Some s' ->
  harks s' !! i = Some h /\ is_Some (step s' (StoppedSpeaking i)).
Proof.
  intros Hi Hrun.
  assert (H : harks s' !! i = Some h).
  { revert s Hi Hrun. induction evs as [|ev evs IH]; intros s Hi Hrun;
      simpl in Hrun; [by simplify_eq|].
    destruct (step s ev) as [s1|] eqn:Hstep; [|done].
    apply (IH s1); [|done]. clear IH Hrun.
    destruct ev; step_cases; try done; by apply lookup_app_l_Some. }
  split; [done|]. unfold step. rewrite H. eauto.
Qed.

(** ** Timeouts *)

(** A timeout option that is absent or 0 schedules nothing: no timeout
    is ever pending, no handle is ever stored, and no auto-stop can
    fire. *)
Theorem falsy_timeout_never_schedules (s : State) :
  truthy_number (timeout props) = false ->
  reachable s ->
  timers s = ∅ /\ timeoutId s = None /\
  forall id, step s (TimeoutFires id) = None.
Proof.
  intros Htimeout Hreach.
  assert (H : timers s = ∅ /\ timeoutId s = None).
  { induction Hreach as [|s ev s' _ [IH1 IH2] Hstep].
    - unfold useEffect, setError.
      repeat (case_match; simplify_eq /=); done.
    - destruct ev; unfold_handlers; rewrite ?Htimeout, ?IH1, ?IH2 in Hstep;
        rewrite ?lookup_empty in Hstep;
        simplify_eq /=; repeat (case_match; simplify_eq /=); done. }
  destruct H as [H1 H2]. repeat split; try done.
  intros id. unfold step. by rewrite H1, lookup_empty.
Qed.

(** A pending timeout leaves the table only by firing, or by a speaking
    event while its handle is the stored one.  Neither
    [stopSpeechToText], nor a stopped-speaking event, nor a new start
    cancels it. *)
Theorem timeout_removed_only_by_fire_or_speech
    (s s' : State) (ev : Event) (id : nat) :
  is_Some (timers s !! id) ->
  step s ev = Some s' ->
  timers s' !! id = None ->
  ev = TimeoutFires id \/ (exists i, ev = Speaking i /\ timeoutId s = Some id).
Proof.
  intros [d Hd] Hstep Hgone.
  destruct ev; step_cases; try congruence;
    repeat match goal with
    | H : <[_:=_]> _ !! _ = None |- _ =>
        apply lookup_insert_None in H as [H ?]
    | H : delete _ _ !! _ = None |- _ =>
        apply lookup_delete_None in H as [-> | H]
    end; try congruence; eauto.
Qed.

(** ** The request pipeline *)

Lemma indexOf_from_bounds (c : ascii) (d : string) (i : Z) :
  (0 <= i)%Z ->
  indexOf_from c d i = (-1)%Z \/ (i <= indexOf_from c d i)%Z.
Proof.
  revert i; induction d as [|a d IH]; intros i Hi; simpl; [by left|].
  destruct (Ascii.eqb a c); [right; lia|].
  destruct (IH (i + 1)%Z) as [H | H]; [lia | by left | right; lia].
Qed.

(** A string in which the character occurs splits at its first
    occurrence. *)
Lemma indexOf_from_found (c : ascii) (d : string) (i : Z) :
  (0 <= i)%Z -> indexOf_from c d i <> (-1)%Z ->
  exists p rest, d = p +:+ String c rest /\ indexOf_from c p i = (-1)%Z.
Proof.
  revert i; induction d as [|a d IH]; intros i Hi Hfound; simpl in Hfound;
    [done|].
  destruct (Ascii.eqb a c) eqn:E.
  - apply Ascii.eqb_eq in E as ->. by exists EmptyString, d.
  - destruct (IH (i + 1)%Z) as (p & rest & -> & Hp); [lia | done |].
    exists (String a p), rest. split; [done|]. simpl. by rewrite E.
Qed.

(** Whatever the data URL is, the payload is the part after its first
    comma, and the whole of it when it has no comma: the request is
    built and sent all the same. *)
Theorem payload_of_any_data_url (d : string) (s : State) :
  (indexOf comma d = (-1)%Z /\ content (build_request props d s) = d) \/
  (exists p,
      indexOf comma p = (-1)%Z /\
      d = p +:+ String comma (content (build_request props d s))).
Proof.
  destruct (Z.eq_dec (indexOf comma d) (-1)%Z) as [Habs | Hfound].
  - left. split; [done|]. unfold build_request; simpl. rewrite Habs.
    by destruct d.
  - right. destruct (indexOf_from_found comma d 0) as (p & rest & -> & Hp);
      [lia | done |].
    exists p. split; [done|]. unfold build_request; simpl.
    by rewrite (payload_after_first_comma p rest Hp).
Qed.

(** Every request goes to the recognize endpoint with the configured
    key in its query string (the text "undefined" when no key was given)
    and asks for en-US. *)
Theorem every_request_targets_endpoint (s : State) (req : Request) :
  reachable s -> EFetch req ∈ log s ->
  url req = endpoint +:+ interpolate (googleApiKey props) /\
  languageCode req = "en-US" /\
  (googleApiKey props = None -> url req = endpoint +:+ "undefined").
Proof.
  intros Hreach Hin.
  assert (H : url req = endpoint +:+ interpolate (googleApiKey props) /\
              languageCode req = "en-US").
  { revert req Hin.
    induction Hreach as [|s ev s' Hreach IH Hstep]; intros req Hin.
    - unfold useEffect, setError in Hin.
      repeat (case_match; simplify_eq /=); by apply elem_of_nil in Hin.
    - destruct ev; step_cases;
        repeat (apply elem_of_app in Hin as [Hin | Hin]);
        try (by apply IH);
        repeat (apply elem_of_cons in Hin as [Hin | Hin]; simplify_eq /=);
        try (by apply elem_of_nil in Hin); try (by apply IH).
      done. }
  destruct H as [H1 H2]. repeat split; try done.
  intros Hkey. by rewrite H1, Hkey.
Qed.

Lemma length_delete_Some {A} (l : list A) (k : nat) (x : A) :
  l !! k = Some x -> S (length (delete k l)) = length l.
Proof.
  intros H. rewrite length_delete by eauto.
  apply lookup_lt_Some in H. lia.
Qed.

(** The requests sent, the reads under way and the exports awaiting
    their callback never outnumber the WAV exports the hook asked for:
    no request is sent without an export, and none twice for the same
    one.  (A read that fails sends nothing, so the count can fall
    short.) *)
Theorem one_request_per_export (s : State) :
  reachable s ->
  count is_fetch (log s) + length (readers s) + length (wavs s)
  <= count is_wav_export (log s).
Proof.
  induction 1 as [|s ev s' _ IH Hstep].
  - unfold useEffect, setError.
    repeat (case_match; simplify_eq /=); done.
  - destruct ev; step_cases; rewrite ?count_app, ?length_app; simpl;
      repeat match goal with
      | H : _ !! _ = Some _ |- _ => apply length_delete_Some in H
      end; lia.
Qed.

(** In the fallback path every transcript is the answer to a request:
    the transcripts, together with the requests still awaiting their
    response, never outnumber the requests sent. *)
Theorem transcripts_bounded_by_requests (s : State) :
  recognition host = false ->
  reachable s ->
  length (results s) + length (fetches s) <= count is_fetch (log s).
Proof.
  intros Hrec Hreach.
  assert (H : recognition_handlers s = false /\
              length (results s) + length (fetches s)
              <= count is_fetch (log s)); [|by destruct H].
  induction Hreach as [|s ev s' _ [IH1 IH2] Hstep].
  - unfold useEffect, setError.
    repeat (case_match; simplify_eq /=); split; (done || lia).
  - destruct ev; unfold_handlers; rewrite ?Hrec, ?IH1 in Hstep;
      simplify_eq /=; repeat (case_match; simplify_eq /=);
      rewrite ?count_app, ?length_app; simpl;
      repeat match goal with
      | H : _ !! _ = Some _ |- _ => apply length_delete_Some in H
      end; split; (done || lia).
Qed.

(** ** The flags the UI sees *)

(** [isRecording] turns true only when a granted microphone request
    resumes [startSpeechToText], or on the recognizer's audio start.  In
    particular a continuous restart shows as recording only once its
    stream has been granted. *)
Theorem isRecording_rises_only_on_stream_or_audio
    (s s' : State) (ev : Event) :
  step s ev = Some s' ->
  isRecording s = false -> isRecording s' = true ->
  ev = StreamSettled true \/ ev = OnAudioStart.
Proof.
  intros Hstep Hoff Hon.
  destruct ev; step_cases; try congruence; auto.
Qed.

(** The error never goes back: along any run it stays what it was or
    becomes the permission-denied message.  A later successful start
    does not clear it. *)
Theorem error_is_never_cleared (s s' : State) (evs : list Event) :
  run s evs = Some s' ->
  error s' = error s \/ error s' = permission_denied.
Proof.
  revert s; induction evs as [|ev evs IH]; intros s Hrun; simpl in Hrun.
  - left. by simplify_eq.
  - destruct (step s ev) as [s1|] eqn:Hstep; [|done].
    assert (H1 : error s1 = error s \/ error s1 = permission_denied).
    { clear IH Hrun. destruct ev; step_cases; auto. }
    destruct (IH _ Hrun) as [H2 | H2]; [|by right].
    rewrite H2. exact H1.
Qed.

(** [recognition.continuous] is only ever set, never reset: once true
    it stays true, also when [startSpeechToText] runs without the
    [continuous] option. *)
Theorem recognition_continuous_is_sticky (s s' : State) (evs : list Event) :
  recognition_continuous s = true ->
  run s evs = Some s' ->
  recognition_continuous s' = true.
Proof.
  revert s; induction evs as [|ev evs IH]; intros s Hc Hrun; simpl in Hrun.
  - by simplify_eq.
  - destruct (step s ev) as [s1|] eqn:Hstep; [|done].
    apply (IH s1); [|done]. clear IH Hrun.
    destruct ev; step_cases; done.
Qed.

(** ** A continuous cycle *)

(** In the fallback path with [continuous] set, one utterance runs the
    whole cycle: the stopped-speaking event, the WAV export, the read,
    the response and the granted restart leave the hook recording again
    on a new stream with one more listener and the transcript appended;
    [stop] has been called twice on the track of the stream that was
    current, by the listener and again by the restart. *)
Theorem continuous_cycle_records_again
    (s : State) (i h : nat) (d : string) (json : CloudJson) (t : string) :
  recognition host = false ->
  truthy (crossBrowser props) = true ->
  truthy (continuous props) = true ->
  reachable s ->
  harks s !! i = Some h ->
  first_transcript json = Some t ->
  exists s' cur,
    run s [StoppedSpeaking i; WavReady (length (wavs s));
           LoadEnd (length (readers s)) d;
           Response (length (fetches s)) json; StreamSettled true]
    = Some s' /\
    results s' = results s ++ [t] /\
    isRecording s' = true /\
    mediaStream s = Some cur /\
    mediaStream s' <> Some cur /\
    length (harks s') = S (length (harks s)) /\
    count (is_track_stop cur) (emitted s s') = 2.
Proof.
  intros Hrec Hcross Hcont Hreach Hi Ht.
  assert (Hres : has_results json = true).
  { unfold first_transcript in Ht. unfold has_results.
    by destruct (json_results json) as [[|r rs]|]. }
  destruct (reachable_hark_has_stream s Hreach) as [Hnil | [cur Hcur]];
    [by rewrite Hnil in Hi|].
  destruct (reachable_streams_fresh s Hreach) as [Hfresh _].
  pose proof (Hfresh _ Hcur) as Hlt.
  clear Hfresh Hreach.
  destruct s as [rec res err ctx tid ms tm nt ns hk rh rc st wv rd ft lg].
  simpl in *. subst ms.
  destruct (onStoppedSpeaking props) eqn:Hcb;
    destruct (truthy_number (timeout props)) eqn:Hto;
    eexists _, cur; unfold emitted; simpl; rewrite ?Hi;
    unfold on_stopped_speaking, stopRecording, stop_current_track,
      setIsRecording; simpl;
    rewrite ?Hcont, ?Hcb; simpl;
    rewrite ?lookup_snoc, ?delete_snoc;
    unfold handleBlobToBase64; simpl;
    rewrite ?lookup_snoc, ?delete_snoc;
    unfold onloadend; simpl;
    rewrite ?lookup_snoc, ?delete_snoc;
    unfold onloadend_response, setResults, startSpeechToText; simpl;
    rewrite ?Hres, ?Ht, ?Hrec, ?Hcross; simpl;
    unfold startSpeechToText_resume, handleRecordingTimeout; simpl;
    rewrite ?Hto; simpl;
    (split; [reflexivity|]); simpl;
    rewrite <- ?app_assoc, ?length_app, ?drop_app_length; simpl;
    rewrite ?Nat.eqb_refl;
    (repeat split; try done; try lia;
     intros E; simplify_eq; lia).
Qed.

End Properties.

(** * The properties at concrete inputs *)

Lemma after_reachable (props : UseSpeechToTextTypes) (host : Host)
    (evs : list Event) (s : State) :
  run props host (useEffect props host initial) evs = Some s ->
  reachable props host (after props host evs).
Proof.
  intros Hrun. unfold after. rewrite Hrun. simpl.
  eapply run_reachable; [apply reachable_mount | exact Hrun].
Defined.

Lemma run_cons (props : UseSpeechToTextTypes) (host : Host)
    (s : State) (ev : Event) (evs : list Event) :
  run props host s (ev :: evs) =
  match step props host s ev with
  | Some s' => run props host s' evs
  | None => None
  end.
Proof. reflexivity. Defined.

(** C3 at [useSpeechToText({})] on a browser without recognizer. *)
Lemma start_is_noop_without_fallback_witness :
  recognition bare = false /\ truthy (crossBrowser no_props) = false /\
  startSpeechToText no_props bare initial = initial /\
  step no_props bare initial CallStart = Some initial.
Proof.
  split; [reflexivity|]. split; [reflexivity|].
  apply (start_is_noop_without_fallback no_props bare initial); reflexivity.
Defined.

(** C10 after one fallback start: timeout 0 fires with stream 1 current. *)
Lemma auto_stop_discards_audio_witness :
  let s := after cross_props firefox [CallStart; StreamSettled true] in
  exists s',
    step cross_props firefox s (TimeoutFires 0) = Some s' /\
    results s' = results s /\ isRecording s' = false /\
    log s' = log s ++ [ETrackStop 1] ++ [EStopRecording false None].
Proof.
  intros s. eexists. split; [vm_compute; reflexivity|].
  pose proof (auto_stop_discards_audio cross_props firefox s _ 0 eq_refl)
    as (H1 & H2 & _ & _ & _ & _ & H3 & _).
  split; [exact H1|]. split; [exact H2 | exact H3].
Defined.

(** A fallback session up to the request for its first utterance. *)
Lemma request_in_flight :
  fetches (after fallback_props firefox
             [CallStart; StreamSettled true; StoppedSpeaking 0; WavReady 0;
              LoadEnd 0 "data:,"])
  !! 0 = Some false.
Proof. vm_compute. reflexivity. Qed.

(** C1 at the response [hello_json]: "hello" is appended. *)
Lemma response_appends_first_transcript_witness :
  let s := after fallback_props firefox
             [CallStart; StreamSettled true; StoppedSpeaking 0; WavReady 0;
              LoadEnd 0 "data:,"] in
  exists s',
    step fallback_props firefox s (Response 0 hello_json) = Some s' /\
    results s' = results s ++ ["hello"].
Proof.
  intros s. eexists. split; [vm_compute; reflexivity|].
  apply (proj1 (response_appends_first_transcript fallback_props firefox s _ 0
                  hello_json eq_refl)
           {| alternatives := [ {| transcript := "hello" |} ] |} []
           {| transcript := "hello" |} []); reflexivity.
Defined.

(** C1, counterexample: the response [{"results": [{"alternatives":
    []}]}] has a non-empty result list, and nothing is appended. *)
Lemma response_without_alternative_appends_nothing :
  ~ appends_whenever_results_nonempty fallback_props firefox.
Proof.
  intros H.
  pose (s := after fallback_props firefox
               [CallStart; StreamSettled true; StoppedSpeaking 0; WavReady 0;
                LoadEnd 0 "data:,"]).
  pose (s' := after fallback_props firefox
                [CallStart; StreamSettled true; StoppedSpeaking 0; WavReady 0;
                 LoadEnd 0 "data:,"; Response 0 no_alternative_json]).
  assert (E : step fallback_props firefox s (Response 0 no_alternative_json)
              = Some s') by (vm_compute; reflexivity).
  specialize (H s s' 0 no_alternative_json E).
  simpl in H. destruct H as (t & _ & H). vm_compute in H.
  destruct t; discriminate H.
Qed.

(** The same response, run: the list is as it was, and the TypeError of
    the updater is the last thing logged. *)
Example response_without_alternative_run :
  let s := after fallback_props firefox
             [CallStart; StreamSettled true; StoppedSpeaking 0; WavReady 0;
              LoadEnd 0 "data:,"; Response 0 no_alternative_json] in
  results s = [] /\ last (log s) = Some EUncaught.
Proof. vm_compute. split; reflexivity. Qed.

(** C4 at a native recognition result. *)
Lemma results_append_only_witness :
  let s := after no_props chrome [CallStart] in
  let e := {| e_results := Some [[ {| transcript := "hi" |} ]] |} in
  exists s',
    step no_props chrome s (OnResult e) = Some s' /\
    (results s' = results s \/ exists t, results s' = results s ++ [t]).
Proof.
  intros s e. eexists. split; [vm_compute; reflexivity|].
  apply (proj2 (results_append_only no_props chrome s) (OnResult e) _ eq_refl).
Defined.

(** C5 at a 96 kHz context and a small data URL. *)
Lemma request_is_capped_linear16_witness :
  let s := after no_props firefox [CallStop; WavReady 0] in
  exists s' req,
    step no_props firefox s (LoadEnd 0 "data:audio/wav;base64,UklGRg==")
    = Some s' /\
    emitted s s' = [EFetch req] /\
    encoding req = "LINEAR16" /\
    content req = "UklGRg==" /\
    sampleRateHertz req = Some 48000%Z.
Proof.
  intros s.
  assert (Hreach : reachable no_props firefox s).
  { apply (after_reachable no_props firefox _ s). vm_compute. reflexivity. }
  eexists.
  destruct (request_is_capped_linear16 no_props firefox s _ 0
              "data:audio/wav;base64" "UklGRg==" Hreach eq_refl eq_refl)
    as (req & H1 & H2 & H3 & H4 & _).
  exists req. split; [reflexivity|]. repeat (split; [assumption|]). exact H4.
Defined.

(** C8 on a browser with neither recognizer nor microphone access. *)
Lemma error_is_last_descriptive_message_witness :
  error (useEffect no_props bare initial) = unsupported_getUserMedia /\
  error (useEffect no_props firefox initial) = unsupported_recognition /\
  error (after cross_props firefox [CallStart; StreamSettled false])
  = permission_denied.
Proof.
  destruct (error_is_last_descriptive_message no_props bare)
    as (_ & _ & H1 & _).
  destruct (error_is_last_descriptive_message no_props firefox)
    as (_ & H2 & _).
  destruct (error_is_last_descriptive_message cross_props firefox)
    as (_ & _ & _ & H3 & _).
  split; [apply H1; reflexivity|].
  split; [apply H2; reflexivity|].
  apply (H3 (after cross_props firefox [CallStart])). vm_compute. reflexivity.
Defined.

(** C6 with [continuous] set: one microphone request after the response. *)
Lemma restart_after_speech_iff_continuous_witness :
  let s := after cross_props firefox [CallStart; StreamSettled true] in
  exists s',
    run cross_props firefox s
      [StoppedSpeaking 0; WavReady 0; LoadEnd 0 "data:,"; Response 0 hello_json]
    = Some s' /\
    starts s' = starts s + 1 /\
    count is_start_recording (emitted s s') = 1.
Proof.
  intros s.
  destruct (restart_after_speech_iff_continuous cross_props firefox s 0
              "data:," hello_json eq_refl eq_refl
              (fun _ => ex_intro _ "hello" eq_refl) (ex_intro _ 1 eq_refl))
    as (s1 & s2 & s3 & s4 & H1 & _ & H2 & H3 & _ & H4 & H5 & H6).
  exists s4. split; [|split; [exact H5 | exact H6]].
  change (length (wavs s)) with 0 in H2.
  change (length (readers s)) with 0 in H3.
  change (length (fetches s)) with 0 in H4.
  rewrite run_cons, H1, run_cons, H2, run_cons, H3, run_cons, H4.
  reflexivity.
Defined.

(** C6, counterexample: [continuous] is set and the response is
    [{"results": [{"alternatives": []}]}].  The updater throws inside
    [setResults], the handler stops there, and [startSpeechToText] is
    not called although the flag is set. *)
Lemma throwing_response_skips_restart :
  ~ restarts_exactly_when_flag_set cross_props firefox.
Proof.
  intros H.
  pose (s := after cross_props firefox
               [CallStart; StreamSettled true; StoppedSpeaking 0; WavReady 0;
                LoadEnd 0 "data:,"]).
  pose (s' := after cross_props firefox
                [CallStart; StreamSettled true; StoppedSpeaking 0; WavReady 0;
                 LoadEnd 0 "data:,"; Response 0 no_alternative_json]).
  assert (Hk : fetches s !! 0 = Some true) by (vm_compute; reflexivity).
  assert (E : step cross_props firefox s (Response 0 no_alternative_json)
              = Some s') by (vm_compute; reflexivity).
  specialize (H s s' 0 true no_alternative_json Hk E).
  vm_compute in H. discriminate H.
Qed.

(** The same run: one microphone request in all, the first one; none is
    pending after the response, and the TypeError is the last thing
    logged. *)
Example throwing_response_run :
  let s := after cross_props firefox
             [CallStart; StreamSettled true; StoppedSpeaking 0; WavReady 0;
              LoadEnd 0 "data:,"; Response 0 no_alternative_json] in
  results s = [] /\ starts s = 0 /\
  count is_start_recording (log s) = 1 /\ last (log s) = Some EUncaught.
Proof. vm_compute. repeat split; reflexivity. Qed.

(** C6 without [continuous]: the transcript arrives and the microphone
    is not asked for again. *)
Example no_restart_without_continuous :
  let s := after fallback_props firefox
             [CallStart; StreamSettled true; StoppedSpeaking 0; WavReady 0;
              LoadEnd 0 "data:,"; Response 0 hello_json] in
  results s = ["hello"] /\ starts s = 0 /\ isRecording s = false /\
  count is_start_recording (log s) = 1.
Proof. vm_compute. repeat split; reflexivity. Qed.

(** C7 (amended) after one fallback start with [continuous] set:
    stream 1 is current; the listener stops it once, the chain up to
    the response leaves it alone, and the granted restart stops it
    again. *)
Lemma stopped_speaking_track_stops_witness :
  let s := after cross_props firefox [CallStart; StreamSettled true] in
  isRecording s = true /\
  exists s1 s4 s5,
    step cross_props firefox s (StoppedSpeaking 0) = Some s1 /\
    isRecording s1 = false /\
    emitted s s1 = [ETrackStop 1; EStopRecording true (Some true)] /\
    count (is_track_stop 1) (emitted s s1) = 1 /\
    run cross_props firefox s1
      [WavReady 0; LoadEnd 0 "data:,"; Response 0 hello_json] = Some s4 /\
    count (is_track_stop 1) (emitted s s4) = 1 /\
    step cross_props firefox s4 (StreamSettled true) = Some s5 /\
    count (is_track_stop 1) (emitted s s5) = 2.
Proof.
  intros s. split; [reflexivity|].
  assert (Hreach : reachable cross_props firefox s).
  { apply (after_reachable cross_props firefox _ s). vm_compute. reflexivity. }
  destruct (stopped_speaking_track_stops cross_props firefox s 0 "data:,"
              hello_json Hreach (ex_intro _ 1 eq_refl))
    as (cur & s1 & s2 & s3 & s4 & Hcur & H1 & Hrec & Hem & Hc1 & _ & _ &
        H2 & H3 & H4 & Hm4 & Hc4 & Hnext).
  assert (Hone : cur = 1) by (vm_compute in Hcur; congruence).
  subst cur.
  change (length (wavs s)) with 0 in H2.
  change (length (readers s)) with 0 in H3.
  change (length (fetches s)) with 0 in H4.
  assert (H5 : exists s5, step cross_props firefox s4 (StreamSettled true)
                          = Some s5).
  { pose proof H1 as E1. vm_compute in E1. injection E1 as E1.
    pose proof H2 as E2. rewrite <- E1 in E2. vm_compute in E2.
    injection E2 as E2.
    pose proof H3 as E3. rewrite <- E2 in E3. vm_compute in E3.
    injection E3 as E3.
    pose proof H4 as E4. rewrite <- E3 in E4. vm_compute in E4.
    injection E4 as E4.
    rewrite <- E4. eexists. vm_compute. reflexivity. }
  destruct H5 as [s5 H5].
  exists s1, s4, s5. split; [exact H1|]. split; [exact Hrec|].
  split; [exact Hem|]. split; [exact Hc1|].
  split; [rewrite run_cons, H2, run_cons, H3, run_cons, H4; reflexivity|].
  split; [exact Hc4|]. split; [exact H5 | exact (Hnext s5 H5)].
Defined.

(** C7, counterexample: with [continuous] set, the chain of one
    stopped-speaking event stops the track of stream 1 twice, in the
    listener and again in the restart. *)
Lemma restart_stops_track_again :
  ~ track_stopped_once_for_event cross_props firefox.
Proof.
  intros H.
  pose (s := after cross_props firefox [CallStart; StreamSettled true]).
  pose (s' := after cross_props firefox
                [CallStart; StreamSettled true; StoppedSpeaking 0; WavReady 0;
                 LoadEnd 0 "data:,"; Response 0 hello_json;
                 StreamSettled true]).
  assert (Hreach : reachable cross_props firefox s).
  { apply (after_reachable cross_props firefox _ s). vm_compute. reflexivity. }
  assert (Hcur : mediaStream s = Some 1) by (vm_compute; reflexivity).
  assert (E : run cross_props firefox s
                [StoppedSpeaking 0; WavReady (length (wavs s));
                 LoadEnd (length (readers s)) "data:,";
                 Response (length (fetches s)) hello_json; StreamSettled true]
              = Some s') by (vm_compute; reflexivity).
  specialize (H s s' 0 1 "data:," hello_json Hreach Hcur E).
  vm_compute in H. discriminate H.
Qed.

(** C9 with [continuous] set: the manual stop still asks for nothing. *)
Lemma manual_stop_never_restarts_witness :
  let s := after cross_props firefox [CallStart; StreamSettled true] in
  exists s',
    run cross_props firefox s
      [CallStop; WavReady 0; LoadEnd 0 "data:,"; Response 0 hello_json]
    = Some s' /\
    starts s' = starts s /\ isRecording s' = false /\
    count is_start_recording (emitted s s') = 0.
Proof.
  intros s.
  destruct (manual_stop_never_restarts cross_props firefox s "data:,"
              hello_json eq_refl)
    as (s1 & s2 & s3 & s4 & H1 & _ & _ & H2 & H3 & _ & H4 & H5 & H6 & H7).
  exists s4. split; [|split; [exact H5 | split; [exact H6 | exact H7]]].
  change (length (wavs s)) with 0 in H2.
  change (length (readers s)) with 0 in H3.
  change (length (fetches s)) with 0 in H4.
  rewrite run_cons, H1, run_cons, H2, run_cons, H3, run_cons, H4.
  reflexivity.
Defined.

(** After one fallback start the speaking event clears timeout 0, whose
    handle is stored, and it cannot fire afterwards. *)
Lemma auto_stop_cleared_while_handle_stored_witness :
  let s := after cross_props firefox [CallStart; StreamSettled true] in
  timeoutId s = Some 0 /\ timers s !! 0 = Some (Some 5000%Z) /\
  exists s',
    step cross_props firefox s (Speaking 0) = Some s' /\
    timers s' !! 0 = None /\
    step cross_props firefox s' (TimeoutFires 0) = None.
Proof.
  intros s.
  assert (Hreach : reachable cross_props firefox s).
  { apply (after_reachable cross_props firefox _ s). vm_compute. reflexivity. }
  split; [reflexivity|]. split; [vm_compute; reflexivity|].
  eexists. split; [vm_compute; reflexivity|].
  destruct (auto_stop_cleared_while_handle_stored cross_props firefox s
              Hreach eq_refl) as (_ & _ & _ & Hclear).
  exact (Hclear 0 0 _ eq_refl eq_refl [] _ eq_refl).
Defined.

(** Start twice, then speak.  The speaking event clears timeout 1, the
    stored handle; timeout 0, scheduled by the first start, is still
    pending: the second [handleRecordingTimeout] overwrote
    [timeoutId.current] without clearing the timeout it held. *)
Lemma speaking_leaves_older_auto_stop_pending :
  ~ speaking_clears_scheduled_auto_stop cross_props firefox.
Proof.
  intros H.
  pose (s0 := after cross_props firefox [CallStart]).
  assert (Hreach : reachable cross_props firefox s0).
  { apply (after_reachable cross_props firefox _ s0). vm_compute. reflexivity. }
  pose (s1 := after cross_props firefox [CallStart; StreamSettled true]).
  pose (s2 := after cross_props firefox
                [CallStart; StreamSettled true; CallStart; StreamSettled true]).
  pose (s3 := after cross_props firefox
                [CallStart; StreamSettled true; CallStart; StreamSettled true;
                 Speaking 1]).
  assert (E1 : step cross_props firefox s0 (StreamSettled true) = Some s1)
    by (vm_compute; reflexivity).
  assert (E2 : run cross_props firefox s1 [CallStart; StreamSettled true]
               = Some s2) by (vm_compute; reflexivity).
  assert (E3 : step cross_props firefox s2 (Speaking 1) = Some s3)
    by (vm_compute; reflexivity).
  specialize (H s0 s1 s2 s3 true _ 1 Hreach E1 E2 E3).
  vm_compute in H. discriminate H.
Qed.

(** C2. The code at the failing run: two fallback starts, then speech.
    The speaking event has cleared timeout 1, the stored handle; timeout
    0 is still pending, fires, sets [isRecording] to false and stops the
    track of the stream being recorded, although speech occurred after
    it was scheduled. *)
Theorem older_auto_stop_fires_after_speech :
  let s := after cross_props firefox
             [CallStart; StreamSettled true; CallStart; StreamSettled true;
              Speaking 1] in
  isRecording s = true /\ timeoutId s = Some 1 /\
  timers s !! 1 = None /\ timers s !! 0 = Some (Some 5000%Z) /\
  exists s',
    step cross_props firefox s (TimeoutFires 0) = Some s' /\
    isRecording s' = false /\
    emitted s s' = [ETrackStop 3; EStopRecording false None].
Proof.
  intros s. split; [reflexivity|]. split; [reflexivity|].
  split; [vm_compute; reflexivity|]. split; [vm_compute; reflexivity|].
  eexists. split; [vm_compute; reflexivity|].
  split; vm_compute; reflexivity.
Qed.

(** * The further properties at concrete inputs *)

Lemma onresult_appends_last_result_witness :
  let s := after no_props chrome [CallStart] in
  exists s',
    step no_props chrome s (OnResult two_results) = Some s' /\
    results s' = results s ++ ["hello world"].
Proof.
  intros s. eexists. split; [vm_compute; reflexivity|].
  apply (proj1 (onresult_appends_last_result no_props chrome s _ two_results
                  eq_refl)
           [ [ {| transcript := "hello" |} ] ]
           {| transcript := "hello world" |}
           [ {| transcript := "hollow world" |} ]).
  reflexivity.
Defined.

Lemma native_path_never_uses_fallback_witness :
  let s := after cross_props chrome [CallStart; OnAudioStart; CallStop] in
  starts s = 0 /\ harks s = [] /\ timers s = ∅ /\ timeoutId s = None /\
  mediaStream s = None /\ wavs s = [] /\ readers s = [] /\ fetches s = [] /\
  count is_fallback_call (log s) = 0.
Proof.
  intros s.
  apply (native_path_never_uses_fallback cross_props chrome s);
    [reflexivity|].
  apply (after_reachable cross_props chrome _ s). vm_compute. reflexivity.
Defined.

Lemma fallback_never_uses_recognizer_witness :
  let s := after cross_props edge [CallStart; StreamSettled true] in
  recognition_handlers s = false /\
  (forall e, step cross_props edge s (OnResult e) = None) /\
  step cross_props edge s OnAudioStart = None /\
  step cross_props edge s OnAudioEnd = None /\
  count is_recognition_call (log s) = 0.
Proof.
  intros s.
  apply (fallback_never_uses_recognizer cross_props edge s); [reflexivity|].
  apply (after_reachable cross_props edge _ s). vm_compute. reflexivity.
Defined.

Lemma unsupported_never_records_witness :
  let s := after no_props firefox [CallStart; CallStop; WavReady 0] in
  isRecording s = false /\ starts s = 0 /\ harks s = [] /\
  timers s = ∅ /\ mediaStream s = None /\
  count is_start_recording (log s) = 0.
Proof.
  intros s.
  apply (unsupported_never_records no_props firefox s);
    [reflexivity | reflexivity |].
  apply (after_reachable no_props firefox _ s). vm_compute. reflexivity.
Defined.

Lemma granted_start_installs_fresh_stream_witness :
  let s := after cross_props firefox [CallStart; StreamSettled true; CallStart] in
  exists s',
    step cross_props firefox s (StreamSettled true) = Some s' /\
    mediaStream s = Some 1 /\ mediaStream s' = Some 3 /\
    harks s' = [1; 3] /\ emitted s s' = [ETrackStop 1].
Proof.
  intros s.
  assert (Hreach : reachable cross_props firefox s).
  { apply (after_reachable cross_props firefox _ s). vm_compute. reflexivity. }
  eexists. split; [vm_compute; reflexivity|].
  destruct (granted_start_installs_fresh_stream cross_props firefox s _
              Hreach eq_refl)
    as (clone & H1 & _ & _ & H2 & _ & _ & _ & H3).
  assert (Hclone : clone = 3) by (vm_compute in H1; congruence).
  subst clone.
  split; [vm_compute; reflexivity|]. split; [exact H1|].
  split; [exact H2 | exact H3].
Defined.

Lemma mediaStream_is_newest_listener_witness :
  let s := after cross_props firefox
             [CallStart; StreamSettled true; CallStart; StreamSettled true] in
  mediaStream s = last (harks s).
Proof.
  intros s. apply (mediaStream_is_newest_listener cross_props firefox s).
  apply (after_reachable cross_props firefox _ s). vm_compute. reflexivity.
Defined.

Lemma listeners_are_never_removed_witness :
  let s := after cross_props firefox [CallStart; StreamSettled true] in
  let s' := after cross_props firefox
              [CallStart; StreamSettled true; CallStop; TimeoutFires 0] in
  harks s' !! 0 = Some 1 /\
  is_Some (step cross_props firefox s' (StoppedSpeaking 0)).
Proof.
  intros s s'.
  assert (Hrun : run cross_props firefox s [CallStop; TimeoutFires 0] = Some s')
    by (vm_compute; reflexivity).
  assert (Hi : harks s !! 0 = Some 1) by (vm_compute; reflexivity).
  exact (listeners_are_never_removed cross_props firefox s s' _ 0 1 Hi Hrun).
Defined.

Lemma falsy_timeout_never_schedules_witness :
  let s := after zero_timeout_props firefox [CallStart; StreamSettled true] in
  timers s = ∅ /\ timeoutId s = None /\
  forall id, step zero_timeout_props firefox s (TimeoutFires id) = None.
Proof.
  intros s.
  apply (falsy_timeout_never_schedules zero_timeout_props firefox s);
    [reflexivity|].
  apply (after_reachable zero_timeout_props firefox _ s).
  vm_compute. reflexivity.
Defined.

Lemma timeout_removed_only_by_fire_or_speech_witness :
  let s := after cross_props firefox [CallStart; StreamSettled true] in
  let s' := after cross_props firefox
              [CallStart; StreamSettled true; Speaking 0] in
  Speaking 0 = TimeoutFires 0 \/
  (exists i, Speaking 0 = Speaking i /\ timeoutId s = Some 0).
Proof.
  intros s s'.
  assert (Hpending : is_Some (timers s !! 0))
    by (exists (Some 5000%Z); vm_compute; reflexivity).
  assert (Hstep : step cross_props firefox s (Speaking 0) = Some s')
    by (vm_compute; reflexivity).
  assert (Hgone : timers s' !! 0 = None) by (vm_compute; reflexivity).
  exact (timeout_removed_only_by_fire_or_speech cross_props firefox s s'
           (Speaking 0) 0 Hpending Hstep Hgone).
Defined.

Lemma every_request_targets_endpoint_witness :
  let s := after fallback_props firefox
             [CallStart; StreamSettled true; StoppedSpeaking 0; WavReady 0;
              LoadEnd 0 "data:,"] in
  exists req,
    EFetch req ∈ log s /\
    url req = endpoint +:+ "undefined" /\ languageCode req = "en-US".
Proof.
  intros s.
  assert (Hreach : reachable fallback_props firefox s).
  { apply (after_reachable fallback_props firefox _ s). vm_compute. reflexivity. }
  assert (Hin : exists req, EFetch req ∈ log s).
  { eexists. apply list_elem_of_In. vm_compute. do 4 right. left. reflexivity. }
  destruct Hin as [req Hin]. exists req. split; [exact Hin|].
  destruct (every_request_targets_endpoint fallback_props firefox s req
              Hreach Hin) as (_ & H2 & H3).
  split; [exact (H3 eq_refl) | exact H2].
Defined.

(** Two exports, the first of which fails to be read: one request. *)
Lemma one_request_per_export_witness :
  let s := after fallback_props firefox
             [CallStart; StreamSettled true; StoppedSpeaking 0; CallStop;
              WavReady 0; ReadFailed 0; WavReady 0; LoadEnd 0 "data:,"] in
  count is_wav_export (log s) = 2 /\ count is_fetch (log s) = 1 /\
  count is_fetch (log s) + length (readers s) + length (wavs s)
  <= count is_wav_export (log s).
Proof.
  intros s. split; [reflexivity|]. split; [reflexivity|].
  apply (one_request_per_export fallback_props firefox s).
  apply (after_reachable fallback_props firefox _ s). vm_compute. reflexivity.
Defined.

Lemma transcripts_bounded_by_requests_witness :
  let s := after fallback_props firefox
             [CallStart; StreamSettled true; StoppedSpeaking 0; WavReady 0;
              LoadEnd 0 "data:,"; Response 0 hello_json] in
  length (results s) + length (fetches s) <= count is_fetch (log s).
Proof.
  intros s.
  apply (transcripts_bounded_by_requests fallback_props firefox s);
    [reflexivity|].
  apply (after_reachable fallback_props firefox _ s). vm_compute. reflexivity.
Defined.

Lemma isRecording_rises_only_on_stream_or_audio_witness :
  let s := after cross_props firefox [CallStart] in
  let s' := after cross_props firefox [CallStart; StreamSettled true] in
  isRecording s = false /\ isRecording s' = true /\
  (StreamSettled true = StreamSettled true \/ StreamSettled true = OnAudioStart).
Proof.
  intros s s'.
  assert (Hstep : step cross_props firefox s (StreamSettled true) = Some s')
    by (vm_compute; reflexivity).
  split; [reflexivity|]. split; [reflexivity|].
  exact (isRecording_rises_only_on_stream_or_audio cross_props firefox s s'
           (StreamSettled true) Hstep eq_refl eq_refl).
Defined.

Lemma error_is_never_cleared_witness :
  let s := after cross_props firefox [CallStart; StreamSettled false] in
  let s' := after cross_props firefox
              [CallStart; StreamSettled false; CallStart; StreamSettled true] in
  isRecording s' = true /\
  (error s' = error s \/ error s' = permission_denied).
Proof.
  intros s s'.
  assert (Hrun : run cross_props firefox s [CallStart; StreamSettled true]
                 = Some s') by (vm_compute; reflexivity).
  split; [reflexivity|].
  exact (error_is_never_cleared cross_props firefox s s' _ Hrun).
Defined.

(** The recognizer is shared by the page: a hook without [continuous]
    that starts it after one with [continuous] finds it continuous. *)
Lemma recognition_continuous_is_sticky_witness :
  let s := after cross_props chrome [CallStart] in
  exists s',
    run no_props chrome s [CallStop; CallStart] = Some s' /\
    recognition_continuous s' = true.
Proof.
  intros s. eexists. split; [vm_compute; reflexivity|].
  apply (recognition_continuous_is_sticky no_props chrome s _
           [CallStop; CallStart]); [reflexivity|].
  vm_compute. reflexivity.
Defined.

Lemma continuous_cycle_records_again_witness :
  let s := after cross_props firefox [CallStart; StreamSettled true] in
  exists s' cur,
    run cross_props firefox s
      [StoppedSpeaking 0; WavReady (length (wavs s));
       LoadEnd (length (readers s)) "data:,";
       Response (length (fetches s)) hello_json; StreamSettled true]
    = Some s' /\
    results s' = results s ++ ["hello"] /\
    isRecording s' = true /\
    mediaStream s = Some cur /\
    mediaStream s' <> Some cur /\
    length (harks s') = S (length (harks s)) /\
    count (is_track_stop cur) (emitted s s') = 2.
Proof.
  intros s.
  assert (Hreach : reachable cross_props firefox s).
  { apply (after_reachable cross_props firefox _ s). vm_compute. reflexivity. }
  assert (Hi : harks s !! 0 = Some 1) by (vm_compute; reflexivity).
  exact (continuous_cycle_records_again cross_props firefox s 0 1 "data:,"
           hello_json "hello" eq_refl eq_refl eq_refl Hreach Hi eq_refl).
Defined.
